(** * Countries table: the query layer and the table renderer of [js/index.js]

    The script keeps the data set of [countries-data.js] on [countries.all],
    answers three queries over it ([getByLanguage], [getByPopulation],
    [getByAreaAndContinent]) and rebuilds the rows of the [#table-rows]
    table body from a query result ([tableHelper]).

    JavaScript objects are references: [Object.assign({}, o)] makes a new
    object, and [newArr[i].name = ...] writes into an object that an array
    merely points to.  The embedding therefore keeps an explicit object
    store and threads it through every query, so that "the data set is not
    altered" is a statement about the store and not a consequence of the
    typing.  The page enters the state as the one element the script
    touches, the table body [#table-rows]; the menu ([setupMenuHandlers]
    and the twelve click listeners) is laid over it as a [page], with the
    heading [#subtitle] and the menu elements. *)

From stdpp Require Import base option list strings pretty gmap.
From Stdlib Require Import QArith.
Close Scope Q_scope.
Local Open Scope string_scope.
Local Open Scope list_scope.

(** ** Values and objects *)

(** An object reference: the index of the object in the store. *)
Abbreviation loc := nat.

(** What the [name] property of a country object can hold: the name object
    of the data set (a reference to a language-to-name map), one resolved
    name, [undefined], or a member of [Object.prototype] that a lookup has
    found up the prototype chain (a built-in function, or for [__proto__]
    the prototype itself); of such a host value the model keeps the text
    that the host prints for it. *)
Inductive value : Type :=
  | VUndefined
  | VString (s : string)
  | VNames (l : loc)
  | VHost (text : string).

(** A country object.  Numbers are JavaScript numbers; the queries only
    compare them, so a finite number is taken as the rational it denotes
    (NaN and the infinities are left out of the model). *)
Record country : Type := Country {
  code : string;
  continent : string;
  areaInKm2 : Q;
  population : Q;
  capital : string;
  name : value
}.

(** [o.name = v] on the object value. *)
Definition set_name (c : country) (v : value) : country :=
  {| code := code c; continent := continent c; areaInKm2 := areaInKm2 c;
     population := population c; capital := capital c; name := v |}.

(** DOM nodes: elements (tag, attributes, children) and text nodes. *)
Inductive node : Type :=
  | Element (e : element)
  | Text (data : string)
with element : Type :=
  | MkElement (tagName : string) (attributes : gmap string string)
              (childNodes : list node).

Definition tagName (e : element) : string :=
  match e with MkElement t _ _ => t end.
Definition attributes (e : element) : gmap string string :=
  match e with MkElement _ a _ => a end.
Definition childNodes (e : element) : list node :=
  match e with MkElement _ _ k => k end.

(** The program state reachable from the script: the array [countries.all]
    (references to country objects), the country objects, the name objects,
    and the element that [document.querySelector('#table-rows')] finds
    ([None] when the page has none).  A name object is an object literal
    of the data set: its own properties map language labels to strings,
    and what it has not itself it inherits from [Object.prototype], whose
    properties are kept by name, each with the text that the host prints
    for its value. *)
Record state : Type := State {
  all : list loc;
  objects : list country;
  nameObjects : list (gmap string string);
  tableRows : option element;
  objectPrototype : gmap string string
}.

Definition setObjects (st : state) (objs : list country) : state :=
  {| all := all st; objects := objs; nameObjects := nameObjects st;
     tableRows := tableRows st; objectPrototype := objectPrototype st |}.

Definition setTableRows (st : state) (e : element) : state :=
  {| all := all st; objects := objects st; nameObjects := nameObjects st;
     tableRows := Some e; objectPrototype := objectPrototype st |}.

(** ** A state-and-failure monad

    [None] stands for a run of which the model gives no result: the script
    throws a [TypeError] (a property read on [undefined] or [null]), or the
    store is outside the model (a dangling reference, which JavaScript has
    not; a lookup on a [name] that is a string or a host value, which
    depends on more of the host than the state holds).  Where a theorem
    concludes [None], the script throws. *)
Definition M (A : Type) : Type := state → option (A * state).

Definition ret {A} (a : A) : M A := λ st, Some (a, st).

Definition bind {A B} (m : M A) (k : A → M B) : M B :=
  λ st, match m st with
        | Some (a, st') => k a st'
        | None => None
        end.

Definition lift {A} (o : option A) : M A :=
  λ st, match o with
        | Some a => Some (a, st)
        | None => None
        end.

Definition gets {A} (f : state → A) : M A := λ st, Some (f st, st).

Notation "x <~ m ;; k" := (bind m (λ x, k))
  (at level 100, m at next level, right associativity,
   format "'[v' x  <~  m  ;;  '/' k ']'").

(** Reading the object behind a reference. *)
Definition readObject (l : loc) : M country :=
  λ st, lift (objects st !! l) st.

(** [Object.assign({}, o)]: a new object with the properties of [o]; the
    property values are copied as they are, so a [name] that is a reference
    is shared with [o]. *)
Definition objectAssign (l : loc) : M loc :=
  λ st, match objects st !! l with
        | Some c => Some (length (objects st), setObjects st (objects st ++ [c]))
        | None => None
        end.

(** [o.name = v] on the object behind [l]. *)
Definition writeName (l : loc) (v : value) : M unit :=
  λ st, match objects st !! l with
        | Some c => Some (tt, setObjects st (<[l := set_name c v]> (objects st)))
        | None => None
        end.

(** [o[key]] for [o] an object literal with the own properties [m]: the
    own property when there is one, else the property of that name of
    [Object.prototype], else [undefined]. *)
Definition lookupProperty (prototype m : gmap string string) (key : string)
  : value :=
  match m !! key with
  | Some s => VString s
  | None =>
      match prototype !! key with
      | Some text => VHost text
      | None => VUndefined
      end
  end.

(** [v[key]] for [v] the [name] of a record: the lookup on the name
    object; a [TypeError] on [undefined].  A lookup on a string or on a
    host value does not throw in JavaScript, but what it finds depends on
    the UTF-16 code units of the string and on [String.prototype] or on
    the host object: the model gives no result there, and no record of
    the shape of the data set has such a [name]. *)
Definition getProperty (v : value) (key : string) : M value :=
  λ st, match v with
        | VNames ln =>
            match nameObjects st !! ln with
            | Some m => Some (lookupProperty (objectPrototype st) m key, st)
            | None => None
            end
        | VUndefined | VString _ | VHost _ => None
        end.

(** [for (var i = start; i < bound; i++) body] as [n = bound - start]
    iterations from [i = start], threading the local variable that the body
    updates.  The bound is read once: every loop of the script ranges over
    an array that its body does not resize. *)
Fixpoint forLoop {A} (n i : nat) (body : nat → A → M A) (acc : A) : M A :=
  match n with
  | O => ret acc
  | S n' => acc' <~ body i acc ;; forLoop n' (S i) body acc'
  end.

(** ** [countries] *)

(** Truthiness of a string: only the empty string is falsy. *)
Definition truthy (s : string) : bool :=
  match s with
  | EmptyString => false
  | String _ _ => true
  end.

(** [getByLanguage(language = 'English')]; [None] is a call without the
    argument (or with [undefined]), which takes the default.  The body of
    the loop comes first: [newArr.push(Object.assign({}, this.all[i]))],
    then [if (language) newArr[i].name = this.all[i].name[language]]. *)
Definition getByLanguageStep (language : string) (i : nat) (newArr : list loc)
  : M (list loc) :=
  src <~ (λ st, lift (all st !! i) st) ;;
  copy <~ objectAssign src ;;
  let newArr := newArr ++ [copy] in
  if truthy language then
    tgt <~ lift (newArr !! i) ;;
    names <~ (c <~ readObject src ;; ret (name c)) ;;
    v <~ getProperty names language ;;
    _ <~ writeName tgt v ;;
    ret newArr
  else ret newArr.

Definition getByLanguage (language : option string) : M (list loc) :=
  let language := default "English" language in
  len <~ gets (λ st, length (all st)) ;;
  forLoop len 0 (getByLanguageStep language) [].

(** Truthiness of an optional number: [undefined] and [0] are falsy. *)
Definition toBoolean (n : option Q) : bool :=
  match n with
  | Some q => negb (Qeq_bool q 0)
  | None => false
  end.

(** [x <= y] where [y] may be [undefined] (the comparison is then false). *)
Definition leNumber (x : Q) (y : option Q) : bool :=
  match y with
  | Some y => Qle_bool x y
  | None => false
  end.

(** [x >= y]. *)
Definition geNumber (x y : Q) : bool := Qle_bool y x.

(** [getByPopulation(minPopulation, maxPopulation)]; [unshift] puts the
    match in front of [newArr]. *)
Definition getByPopulation (minPopulation : Q) (maxPopulation : option Q)
  : M (list loc) :=
  country <~ getByLanguage (Some "English") ;;
  forLoop (length country) 0 (λ i newArr,
    l <~ lift (country !! i) ;;
    c <~ readObject l ;;
    if toBoolean maxPopulation then
      if leNumber (population c) maxPopulation
         && geNumber (population c) minPopulation
      then ret (l :: newArr)
      else ret newArr
    else
      if geNumber (population c) minPopulation
      then ret (l :: newArr)
      else ret newArr) [].

(** [getByAreaAndContinent(continent, minArea)]; [===] on two strings is
    equality of the strings. *)
Definition getByAreaAndContinent (continent_ : string) (minArea : Q)
  : M (list loc) :=
  country <~ getByLanguage (Some "English") ;;
  forLoop (length country) 0 (λ i newArr,
    l <~ lift (country !! i) ;;
    c <~ readObject l ;;
    if String.eqb (continent c) continent_ then
      if geNumber (areaInKm2 c) minArea
      then ret (l :: newArr)
      else ret newArr
    else ret newArr) [].

(** ** [tableHelper] *)

Definition createElement (tag : string) : element := MkElement tag ∅ [].

Definition createTextNode (data : string) : node := Text data.

(** [parent.appendChild(child)]: [child] becomes the last child. *)
Definition appendChild (parent : element) (child : node) : element :=
  MkElement (tagName parent) (attributes parent) (childNodes parent ++ [child]).

(** [e.innerHTML = '']: [e] loses its children. *)
Definition clearInnerHTML (e : element) : element :=
  MkElement (tagName e) (attributes e) [].

(** [image.src = url], kept as the [src] attribute of the element. *)
Definition setSrc (e : element) (url : string) : element :=
  MkElement (tagName e) (<["src" := url]> (attributes e)) (childNodes e).

(** [document.querySelector('#table-rows')]; a property access on the
    [null] it returns when nothing matches is a [TypeError]. *)
Definition querySelectorTableRows : M element :=
  λ st, lift (tableRows st) st.

Definition clearTable : M unit :=
  tableRows_ <~ querySelectorTableRows ;;
  λ st, Some (tt, setTableRows st (clearInnerHTML tableRows_)).

Definition countryCodeToFlagImg (countryCode : string) : element :=
  let image := createElement "img" in
  setSrc image ("flags/" +:+ countryCode +:+ ".png").

(** The string that [document.createTextNode] makes of a [name]. *)
Definition valueToString (v : value) : string :=
  match v with
  | VUndefined => "undefined"
  | VString s => s
  | VNames _ => "[object Object]"
  | VHost text => text
  end.

Section Rendering.
(** The string that [document.createTextNode] makes of a number
    (ECMAScript's [Number::toString]); it belongs to the host, and the
    renderer is taken over any such function. *)
Context (numberToString : Q → string).

(** A cell with one child, appended to the row:
    [tableRow.appendChild(cell).appendChild(child)]. *)
Definition appendCell (tableRow : element) (child : node) : element :=
  let cell := createElement "td" in
  appendChild tableRow (Element (appendChild cell child)).

Definition countryToRow (country_ : loc) : M element :=
  c <~ readObject country_ ;;
  let tableRow := createElement "tr" in
  let tableRow := appendCell tableRow (Element (countryCodeToFlagImg (code c))) in
  let tableRow := appendCell tableRow (createTextNode (code c)) in
  let tableRow := appendCell tableRow (createTextNode (valueToString (name c))) in
  let tableRow := appendCell tableRow (createTextNode (continent c)) in
  let tableRow :=
    appendCell tableRow (createTextNode (numberToString (areaInKm2 c))) in
  let tableRow :=
    appendCell tableRow (createTextNode (numberToString (population c))) in
  let tableRow := appendCell tableRow (createTextNode (capital c)) in
  ret tableRow.

Definition countriesToTable (countries_ : list loc) : M unit :=
  _ <~ clearTable ;;
  forLoop (length countries_) 0 (λ i _,
    l <~ lift (countries_ !! i) ;;
    rows <~ countryToRow l ;;
    tableRows_ <~ querySelectorTableRows ;;
    λ st, Some (tt, setTableRows st (appendChild tableRows_ (Element rows)))) tt.

(** The row as the specification words it: seven cells in the order
    flag image, [code], [name], [continent], [areaInKm2], [population],
    [capital]; to be compared with [countryToRow]. *)
Definition specCell (child : node) : node :=
  Element (MkElement "td" ∅ [child]).

Definition specRow (c : country) : element :=
  MkElement "tr" ∅
    [ specCell (Element (MkElement "img"
                           (<["src" := "flags/" +:+ code c +:+ ".png"]> ∅) []));
      specCell (Text (code c));
      specCell (Text (valueToString (name c)));
      specCell (Text (continent c));
      specCell (Text (numberToString (areaInKm2 c)));
      specCell (Text (numberToString (population c)));
      specCell (Text (capital c)) ].
End Rendering.

(** A printer for the whole numbers of the sample: the decimal numeral of
    the integral part. *)
Definition wholeToString (q : Q) : string :=
  pretty (Qnum q / Zpos (Qden q))%Z.

(** ** Reading results *)

(** The objects behind an array of references. *)
Definition readArray (st : state) (arr : list loc) : option (list country) :=
  mapM (λ l, objects st !! l) arr.

(** The condition under which [getByPopulation] keeps a record. *)
Definition inPopulationRange (minPopulation : Q) (maxPopulation : option Q)
  (c : country) : bool :=
  if toBoolean maxPopulation then
    leNumber (population c) maxPopulation && geNumber (population c) minPopulation
  else geNumber (population c) minPopulation.

(** The condition under which [getByAreaAndContinent] keeps a record. *)
Definition inContinentWithArea (continent_ : string) (minArea : Q)
  (c : country) : bool :=
  String.eqb (continent c) continent_ && geNumber (areaInKm2 c) minArea.

(** The condition [P] on the object behind a reference. *)
Definition selects (st : state) (P : country → bool) (l : loc) : bool :=
  match objects st !! l with
  | Some c => P c
  | None => false
  end.

(** [st'] is [st] with more objects in the store: everything reachable in
    [st] is as it was. *)
Definition extends (st st' : state) : Prop :=
  all st' = all st ∧ nameObjects st' = nameObjects st
  ∧ tableRows st' = tableRows st
  ∧ objectPrototype st' = objectPrototype st
  ∧ ∃ xs, objects st' = objects st ++ xs.

(** What "the data set is not altered" means between two states: the
    array [countries.all] is the same, every object of the store is the
    same, and so is every name object. *)
Definition datasetUnchanged (st st' : state) : Prop :=
  all st' = all st
  ∧ (∀ l c, objects st !! l = Some c → objects st' !! l = Some c)
  ∧ nameObjects st' = nameObjects st.

(** The result of a query: the objects behind the array it returns. *)
Definition resultOf (q : M (list loc)) (st : state) : option (list country) :=
  match q st with
  | Some (res, st') => readArray st' res
  | None => None
  end.

(** ** The shape of the data set

    Every entry of [countries.all] is a country object whose [name] is a
    name object (the format of [countries-data.js]). *)
Definition wfRecord (st : state) (l : loc) : bool :=
  match objects st !! l with
  | Some c =>
      match name c with
      | VNames ln =>
          match nameObjects st !! ln with
          | Some _ => true
          | None => false
          end
      | VUndefined | VString _ | VHost _ => false
      end
  | None => false
  end.

Definition wfDataset (st : state) : bool := forallb (wfRecord st) (all st).

(** [c.name[language]] read off the state, for a record of the data set. *)
Definition nameIn (st : state) (language : string) (c : country) : value :=
  match name c with
  | VNames ln =>
      match nameObjects st !! ln with
      | Some m => lookupProperty (objectPrototype st) m language
      | None => VUndefined
      end
  | VUndefined | VString _ | VHost _ => VUndefined
  end.

(** The copy that one iteration of [getByLanguage] leaves in the store. *)
Definition projected (st : state) (language : string) (c : country) : country :=
  if truthy language then set_name c (nameIn st language c) else c.


(** ** A small data set *)

Definition canadaNames : gmap string string :=
  <["English" := "Canada"]> (<["French" := "Canada (fr)"]> ∅).
Definition japanNames : gmap string string :=
  <["English" := "Japan"]> (<["French" := "Japon"]> ∅).
Definition qatarNames : gmap string string :=
  <["English" := "Qatar"]> ∅.

Definition canada : country :=
  Country "CA" "Americas" (9984670 # 1) (36624199 # 1) "Ottawa" (VNames 0).
Definition japan : country :=
  Country "JP" "Asia" (377930 # 1) (127484450 # 1) "Tokyo" (VNames 1).
Definition qatar : country :=
  Country "QA" "Asia" (11586 # 1) (2639211 # 1) "Doha" (VNames 2).

(** The properties of [Object.prototype] in a standard realm, with the
    texts that one host prints for them. *)
Definition nativeFunction (f : string) : string :=
  "function " +:+ f +:+ "() { [native code] }".

Definition standardPrototype : gmap string string :=
  list_to_map
    [ ("constructor", nativeFunction "Object");
      ("__defineGetter__", nativeFunction "__defineGetter__");
      ("__defineSetter__", nativeFunction "__defineSetter__");
      ("hasOwnProperty", nativeFunction "hasOwnProperty");
      ("__lookupGetter__", nativeFunction "__lookupGetter__");
      ("__lookupSetter__", nativeFunction "__lookupSetter__");
      ("isPrototypeOf", nativeFunction "isPrototypeOf");
      ("propertyIsEnumerable", nativeFunction "propertyIsEnumerable");
      ("toString", nativeFunction "toString");
      ("valueOf", nativeFunction "valueOf");
      ("__proto__", "[object Object]");
      ("toLocaleString", nativeFunction "toLocaleString") ].

Definition sample : state :=
  {| all := [0; 1; 2];
     objects := [canada; japan; qatar];
     nameObjects := [canadaNames; japanNames; qatarNames];
     tableRows := Some (MkElement "tbody" (<["id" := "table-rows"]> ∅) []);
     objectPrototype := standardPrototype |}.

(** The data set of one record used as the example of the specification. *)
Definition canadaOnly : state :=
  {| all := [0];
     objects := [Country "CA" "Americas" (9984670 # 1) (36624199 # 1)
                   "Ottawa" (VNames 0)];
     nameObjects := [<["English" := "Canada"]> ∅];
     tableRows := Some (MkElement "tbody" (<["id" := "table-rows"]> ∅) []);
     objectPrototype := standardPrototype |}.

Definition canadaInEnglish : country :=
  Country "CA" "Americas" (9984670 # 1) (36624199 # 1) "Ottawa"
    (VString "Canada").

(** ** The menu

    The page around the script: the script's state, the [#subtitle]
    element, the ids of the menu elements that the page has, and the click
    listeners in the order of their registration.  A listener is named by
    the menu item whose function it is. *)
Inductive menuItem : Type :=
  | menu_english
  | menu_arabic
  | menu_chinese
  | menu_french
  | menu_hindi
  | menu_korean
  | menu_japanese
  | menu_russian
  | menu_population_100_000_000m
  | menu_population_1m_2m
  | menu_americas_1mkm
  | menu_asia_all.

(** The id in the selector under which the script looks the item up. *)
Definition selector (item : menuItem) : string :=
  match item with
  | menu_english => "menu_english"
  | menu_arabic => "menu_arabic"
  | menu_chinese => "menu_chinese"
  | menu_french => "menu_french"
  | menu_hindi => "menu_hindi"
  | menu_korean => "menu_korean"
  | menu_japanese => "menu_japanese"
  | menu_russian => "menu_russian"
  | menu_population_100_000_000m => "menu_population_100_000_000m"
  | menu_population_1m_2m => "menu_population_1m_2m"
  | menu_americas_1mkm => "menu_americas_1mkm"
  | menu_asia_all => "menu_asia_all"
  end.

Record page : Type := Page {
  script : state;
  subtitle : option element;
  menuElements : list string;
  listeners : list (string * menuItem)
}.

Definition setApp (pg : page) (st : state) : page :=
  {| script := st; subtitle := subtitle pg; menuElements := menuElements pg;
     listeners := listeners pg |}.

Definition setSubtitle (pg : page) (e : element) : page :=
  {| script := script pg; subtitle := Some e; menuElements := menuElements pg;
     listeners := listeners pg |}.

Definition setListeners (pg : page) (ls : list (string * menuItem)) : page :=
  {| script := script pg; subtitle := subtitle pg; menuElements := menuElements pg;
     listeners := ls |}.

(** Computations on the page, with the same reading of [None]. *)
Definition P (A : Type) : Type := page → option (A * page).

Definition andThen (a b : P unit) : P unit :=
  λ pg, match a pg with
        | Some (_, pg') => b pg'
        | None => None
        end.

Infix ";;;" := andThen (at level 61, left associativity).

(** [e.textContent = s]: the children of [e] give way to one text node
    (to none when [s] is empty). *)
Definition setTextContent (e : element) (s : string) : element :=
  MkElement (tagName e) (attributes e)
    (match s with
     | EmptyString => []
     | String _ _ => [Text s]
     end).

Section Menu.
(** Two functions of the host: the printing of numbers, and the HTML
    fragment parser behind [e.innerHTML = markup]. *)
Context (numberToString : Q → string) (parseHTML : string → list node).

Definition setInnerHTML (e : element) (markup : string) : element :=
  MkElement (tagName e) (attributes e) (parseHTML markup).

(** [document.querySelector('#subtitle').textContent = s]. *)
Definition subtitleTextContent (s : string) : P unit :=
  λ pg, match subtitle pg with
        | Some e => Some (tt, setSubtitle pg (setTextContent e s))
        | None => None
        end.

(** [document.querySelector('#subtitle').innerHTML = markup]. *)
Definition subtitleInnerHTML (markup : string) : P unit :=
  λ pg, match subtitle pg with
        | Some e => Some (tt, setSubtitle pg (setInnerHTML e markup))
        | None => None
        end.

(** The shape of every listener: [tableHelper.countriesToTable(query)],
    the query being evaluated first, then the statement on [#subtitle]. *)
Definition show (query : M (list loc)) (caption : P unit) : P unit :=
  λ pg, match query (script pg) with
        | Some (res, st1) =>
            match countriesToTable numberToString res st1 with
            | Some (_, st2) => caption (setApp pg st2)
            | None => None
            end
        | None => None
        end.

(** The function that [setupMenuHandlers] registers for each item. *)
Definition handler (item : menuItem) : P unit :=
  match item with
  | menu_english =>
      show (getByLanguage None)
        (subtitleTextContent "List of Countries and Dependencies in English")
  | menu_arabic =>
      show (getByLanguage (Some "Arabic"))
        (subtitleTextContent "List of Countries and Dependencies in Arabic")
  | menu_chinese =>
      show (getByLanguage (Some "Chinese"))
        (subtitleTextContent "List of Countries and Dependencies in Chinese")
  | menu_french =>
      show (getByLanguage (Some "French"))
        (subtitleTextContent "List of Countries and Dependencies in French")
  | menu_hindi =>
      show (getByLanguage (Some "Hindi"))
        (subtitleTextContent "List of Countries and Dependencies in Hindi")
  | menu_korean =>
      show (getByLanguage (Some "Korean"))
        (subtitleTextContent "List of Countries and Dependencies in Korean")
  | menu_japanese =>
      show (getByLanguage (Some "Japanese"))
        (subtitleTextContent "List of Countries and Dependencies in Japanese")
  | menu_russian =>
      show (getByLanguage (Some "Russian"))
        (subtitleTextContent "List of Countries and Dependencies in Russian")
  | menu_population_100_000_000m =>
      show (getByPopulation (100000000 # 1) None)
        (subtitleTextContent
           "List of Countries and Dependencies - Population greater than 100 million")
  | menu_population_1m_2m =>
      show (getByPopulation (1000000 # 1) (Some (2000000 # 1)%Q))
        (subtitleTextContent
           "List of Countries and Dependencies - Population between 1 and 2 millon")
  | menu_americas_1mkm =>
      show (getByAreaAndContinent "Americas" (1000000 # 1))
        (subtitleInnerHTML
           "List of Countries and Dependencies - All countries in Americas with area greater than 1 million km<sup>2</sup")
  | menu_asia_all =>
      show (getByAreaAndContinent "Asia" 0)
        (subtitleTextContent
           "List of Countries and Dependencies - All countries in Asia")
  end.

(** [document.querySelector('#' + id).addEventListener('click', f)] for
    [f] the function of [item]; without such an element the method call
    is on [null] and throws. *)
Definition addClickListener (item : menuItem) : P unit :=
  λ pg, if decide (selector item ∈ menuElements pg)
        then Some (tt, setListeners pg (listeners pg ++ [(selector item, item)]))
        else None.

Definition setupMenuHandlers : P unit :=
  addClickListener menu_english ;;;
  addClickListener menu_arabic ;;;
  addClickListener menu_chinese ;;;
  addClickListener menu_french ;;;
  addClickListener menu_hindi ;;;
  addClickListener menu_korean ;;;
  addClickListener menu_japanese ;;;
  addClickListener menu_russian ;;;
  addClickListener menu_population_100_000_000m ;;;
  addClickListener menu_population_1m_2m ;;;
  addClickListener menu_americas_1mkm ;;;
  addClickListener menu_asia_all.

(** The records that an item is to show, and the children that it is to
    leave in [#subtitle]; both only serve to state what [handler] does. *)
Definition shownRecords (item : menuItem) (st : state) (cs : list country)
  : list country :=
  let english := map (projected st "English") cs in
  match item with
  | menu_english => english
  | menu_arabic => map (projected st "Arabic") cs
  | menu_chinese => map (projected st "Chinese") cs
  | menu_french => map (projected st "French") cs
  | menu_hindi => map (projected st "Hindi") cs
  | menu_korean => map (projected st "Korean") cs
  | menu_japanese => map (projected st "Japanese") cs
  | menu_russian => map (projected st "Russian") cs
  | menu_population_100_000_000m =>
      rev (List.filter (inPopulationRange (100000000 # 1) None) english)
  | menu_population_1m_2m =>
      rev (List.filter
             (inPopulationRange (1000000 # 1) (Some (2000000 # 1)%Q)) english)
  | menu_americas_1mkm =>
      rev (List.filter (inContinentWithArea "Americas" (1000000 # 1)) english)
  | menu_asia_all =>
      rev (List.filter (inContinentWithArea "Asia" 0) english)
  end.
End Menu.

(** The listeners that a click on the element [id] runs. *)
Definition clickListeners (pg : page) (id : string) : list menuItem :=
  map snd (List.filter (λ l, String.eqb (fst l) id) (listeners pg)).

(** The language that a language item of the menu stands for. *)
Definition languageOf (item : menuItem) : option string :=
  match item with
  | menu_english => Some "English"
  | menu_arabic => Some "Arabic"
  | menu_chinese => Some "Chinese"
  | menu_french => Some "French"
  | menu_hindi => Some "Hindi"
  | menu_korean => Some "Korean"
  | menu_japanese => Some "Japanese"
  | menu_russian => Some "Russian"
  | menu_population_100_000_000m | menu_population_1m_2m
  | menu_americas_1mkm | menu_asia_all => None
  end.

(** The sample page: the sample data, a heading, and the twelve menu
    elements. *)
Definition allItems : list menuItem :=
  [ menu_english; menu_arabic; menu_chinese; menu_french; menu_hindi;
    menu_korean; menu_japanese; menu_russian; menu_population_100_000_000m;
    menu_population_1m_2m; menu_americas_1mkm; menu_asia_all ].

Definition samplePage : page :=
  {| script := sample;
     subtitle := Some (MkElement "h4" (<["id" := "subtitle"]> ∅) []);
     menuElements := map selector allItems;
     listeners := [] |}.

(** A record of the data set that has lost its [name]. *)
Definition nameless : state :=
  {| all := [0; 1];
     objects := [canada;
                 Country "XX" "Asia" (1 # 1) (1 # 1) "Nowhere" VUndefined];
     nameObjects := [canadaNames];
     tableRows := Some (MkElement "tbody" (<["id" := "table-rows"]> ∅) []);
     objectPrototype := standardPrototype |}.

(** ** Reading arrays *)

Lemma readArray_Forall2 st arr cs :
  readArray st arr = Some cs ↔ Forall2 (λ l c, objects st !! l = Some c) arr cs.
Proof. unfold readArray. apply mapM_Some. Qed.

Lemma readArray_length st arr cs :
  readArray st arr = Some cs → length cs = length arr.
Proof.
  intros H. apply readArray_Forall2 in H.
  symmetry. eapply Forall2_length, H.
Qed.

Lemma readArray_lookup st arr cs i l :
  readArray st arr = Some cs → arr !! i = Some l →
  ∃ c, cs !! i = Some c ∧ objects st !! l = Some c.
Proof.
  intros H Hl. apply readArray_Forall2 in H.
  destruct (Forall2_lookup_l _ _ _ _ _ H Hl) as (c & Hc & Ho). eauto.
Qed.

Lemma wfRecord_inv st l :
  wfRecord st l = true →
  ∃ c ln m, objects st !! l = Some c ∧ name c = VNames ln
            ∧ nameObjects st !! ln = Some m.
Proof.
  unfold wfRecord. intros H.
  destruct (objects st !! l) as [c|]; [|done].
  destruct (name c) as [| |ln|] eqn:Hn; try done.
  destruct (nameObjects st !! ln) as [m|] eqn:Hm; [|done].
  by exists c, ln, m.
Qed.

Lemma wfDataset_lookup st i l :
  wfDataset st = true → all st !! i = Some l → wfRecord st l = true.
Proof.
  unfold wfDataset. intros H Hl.
  rewrite forallb_forall in H. apply H.
  apply list_elem_of_In. eapply list_elem_of_lookup_2, Hl.
Qed.

Lemma wfDataset_readArray st :
  wfDataset st = true → ∃ cs, readArray st (all st) = Some cs.
Proof.
  unfold wfDataset. intros H.
  assert (is_Some (readArray st (all st))) as [cs Hcs]; [|by exists cs].
  unfold readArray. apply mapM_is_Some. apply Forall_forall.
  intros l Hl. rewrite forallb_forall in H.
  apply list_elem_of_In, H, wfRecord_inv in Hl as (c & _ & _ & Hc & _).
  by exists c.
Qed.

(** ** The loop of [getByLanguage] *)

Lemma projected_lookup st language c ln m :
  name c = VNames ln → nameObjects st !! ln = Some m →
  nameIn st language c = lookupProperty (objectPrototype st) m language.
Proof. unfold nameIn. by intros -> ->. Qed.

Lemma take_S_map {A B} (f : A → B) (l : list A) i x :
  l !! i = Some x → map f (take (S i) l) = map f (take i l) ++ [f x].
Proof. intros H. by rewrite (take_S_r _ _ _ H), map_app. Qed.

Lemma getByLanguageStep_run language st i src c ln m newArr :
  all st !! i = Some src → objects st !! src = Some c →
  name c = VNames ln → nameObjects st !! ln = Some m →
  length newArr = i →
  getByLanguageStep language i newArr st
  = Some (newArr ++ [length (objects st)],
          setObjects st (objects st ++ [projected st language c])).
Proof.
  intros Hsrc Hobj Hname Hm Hlen.
  assert (src < length (objects st)) as Hlt by (by eapply lookup_lt_Some).
  unfold getByLanguageStep, projected, bind, objectAssign.
  cbn. rewrite Hsrc. cbn. rewrite Hobj.
  destruct (truthy language); [|done].
  rewrite lookup_app_r by lia.
  rewrite Hlen, Nat.sub_diag. cbn.
  unfold readObject. cbn.
  rewrite (lookup_app_l _ _ _ Hlt), Hobj. cbn.
  unfold getProperty. rewrite Hname. cbn. rewrite Hm.
  unfold writeName. cbn.
  rewrite lookup_app_r by lia. rewrite Nat.sub_diag. cbn.
  rewrite insert_app_r_alt by lia. rewrite Nat.sub_diag. cbn.
  by rewrite (projected_lookup _ _ _ _ _ Hname Hm).
Qed.

Lemma getByLanguage_loop st language cs :
  wfDataset st = true → readArray st (all st) = Some cs →
  ∀ n i, i + n = length (all st) →
  forLoop n i (getByLanguageStep language)
    (seq (length (objects st)) i)
    (setObjects st (objects st ++ map (projected st language) (take i cs)))
  = Some (seq (length (objects st)) (i + n),
          setObjects st (objects st ++ map (projected st language) cs)).
Proof.
  intros Hwf Hcs n. pose proof (readArray_length _ _ _ Hcs) as Hlen.
  induction n as [|n IH]; intros i Hi.
  - simpl. unfold ret. rewrite Nat.add_0_r.
    rewrite take_ge by lia. done.
  - destruct (lookup_lt_is_Some_2 (all st) i) as [src Hsrc]; [lia|].
    destruct (readArray_lookup _ _ _ _ _ Hcs Hsrc) as (c & Hc & Hobj).
    pose proof (wfDataset_lookup _ _ _ Hwf Hsrc) as Hrec.
    apply wfRecord_inv in Hrec as (c' & ln & m & Hobj' & Hname & Hm).
    assert (c' = c) as -> by congruence.
    assert (length (map (projected st language) (take i cs)) = i) as Hdone.
    { rewrite length_map, length_take. lia. }
    assert (src < length (objects st)) as Hlt by (by eapply lookup_lt_Some).
    specialize (IH (S i) ltac:(lia)).
    rewrite (take_S_map _ _ _ _ Hc) in IH.
    replace (i + S n) with (S i + n) by lia.
    rewrite <- IH. clear IH.
    cbn [forLoop]. unfold bind at 1.
    erewrite (getByLanguageStep_run language _ i src c ln m);
      [| done | by apply lookup_app_l_Some | done | done | by rewrite length_seq].
    cbn [objects setObjects]. rewrite length_app, Hdone, seq_S.
    rewrite <- (assoc_L app). done.
Qed.

(** The run of [getByLanguage] on a well-formed data set, in closed form:
    the copies are the next objects of the store, in the order of
    [countries.all]. *)
Lemma getByLanguage_run st language cs :
  wfDataset st = true → readArray st (all st) = Some cs →
  getByLanguage language st
  = Some (seq (length (objects st)) (length (all st)),
          setObjects st
            (objects st ++ map (projected st (default "English" language)) cs)).
Proof.
  intros Hwf Hcs. unfold getByLanguage, bind, gets.
  pose proof (getByLanguage_loop st (default "English" language) cs Hwf Hcs
                (length (all st)) 0 eq_refl) as H.
  cbn in H. rewrite app_nil_r in H.
  destruct st; exact H.
Qed.

Lemma readArray_fresh st xs :
  readArray (setObjects st (objects st ++ xs))
    (seq (length (objects st)) (length xs)) = Some xs.
Proof.
  apply readArray_Forall2, Forall2_same_length_lookup_2.
  - by rewrite length_seq.
  - intros i l c Hl Hc. apply lookup_seq in Hl as [-> _]. cbn.
    rewrite lookup_app_r by lia.
    by replace (length (objects st) + i - length (objects st)) with i by lia.
Qed.

Lemma readArray_rev st arr cs :
  readArray st arr = Some cs → readArray st (rev arr) = Some (rev cs).
Proof.
  rewrite !readArray_Forall2. induction 1 as [|l c arr cs Hl _ IH]; [done|].
  cbn. apply Forall2_app; [done|]. by constructor.
Qed.

Lemma readArray_filter st P arr cs :
  readArray st arr = Some cs →
  readArray st (List.filter (selects st P) arr) = Some (List.filter P cs).
Proof.
  rewrite !readArray_Forall2. induction 1 as [|l c arr cs Hl _ IH]; [done|].
  cbn. unfold selects at 1. rewrite Hl.
  destruct (P c); [by constructor | done].
Qed.

(** ** The selecting loops

    Both filters run the same loop: read [country[i]], test it, and
    [unshift] it when the test holds. *)
Lemma selectLoop_run (P : country → bool) body country_ st cs :
  (∀ i newArr st, body i newArr st
     = (l <~ lift (country_ !! i) ;;
        c <~ readObject l ;;
        if P c then ret (l :: newArr) else ret newArr) st) →
  readArray st country_ = Some cs →
  ∀ n i newArr, i + n = length country_ →
  forLoop n i body newArr st
  = Some (rev (List.filter (selects st P) (drop i country_)) ++ newArr, st).
Proof.
  intros Hbody Hcs n. induction n as [|n IH]; intros i newArr Hi.
  - rewrite drop_ge by lia. done.
  - destruct (lookup_lt_is_Some_2 country_ i) as [l Hl]; [lia|].
    destruct (readArray_lookup _ _ _ _ _ Hcs Hl) as (c & _ & Hobj).
    rewrite (drop_S _ _ _ Hl). cbn [forLoop List.filter].
    unfold bind at 1. rewrite Hbody.
    unfold bind, lift, readObject, selects at 1. rewrite Hl, Hobj. cbn.
    destruct (P c); unfold ret; rewrite IH by lia; [|done].
    cbn [rev]. by rewrite <- (assoc_L app).
Qed.

Lemma getByPopulation_run st minPopulation maxPopulation cs :
  wfDataset st = true → readArray st (all st) = Some cs →
  let eng := map (projected st "English") cs in
  let st' := setObjects st (objects st ++ eng) in
  ∃ res, getByPopulation minPopulation maxPopulation st = Some (res, st')
         ∧ readArray st' res
           = Some (rev (List.filter
                          (inPopulationRange minPopulation maxPopulation) eng)).
Proof.
  intros Hwf Hcs eng st'.
  pose proof (readArray_fresh st eng) as Hfresh. fold st' in Hfresh.
  unfold eng at 1 in Hfresh. rewrite length_map in Hfresh.
  rewrite (readArray_length _ _ _ Hcs) in Hfresh.
  eexists. split.
  - unfold getByPopulation, bind.
    rewrite (getByLanguage_run _ _ _ Hwf Hcs). cbn [default]. fold eng st'.
    eapply (selectLoop_run (inPopulationRange minPopulation maxPopulation));
      [| exact Hfresh | done].
    intros i newArr s. unfold bind, inPopulationRange.
    destruct (lift _ s) as [[l s1]|]; [|done].
    destruct (readObject l s1) as [[c s2]|]; [|done].
    by destruct (toBoolean maxPopulation).
  - rewrite drop_0, app_nil_r.
    by apply readArray_rev, readArray_filter.
Qed.

Lemma getByAreaAndContinent_run st continent_ minArea cs :
  wfDataset st = true → readArray st (all st) = Some cs →
  let eng := map (projected st "English") cs in
  let st' := setObjects st (objects st ++ eng) in
  ∃ res, getByAreaAndContinent continent_ minArea st = Some (res, st')
         ∧ readArray st' res
           = Some (rev (List.filter
                          (inContinentWithArea continent_ minArea) eng)).
Proof.
  intros Hwf Hcs eng st'.
  pose proof (readArray_fresh st eng) as Hfresh. fold st' in Hfresh.
  unfold eng at 1 in Hfresh. rewrite length_map in Hfresh.
  rewrite (readArray_length _ _ _ Hcs) in Hfresh.
  eexists. split.
  - unfold getByAreaAndContinent, bind.
    rewrite (getByLanguage_run _ _ _ Hwf Hcs). cbn [default]. fold eng st'.
    eapply (selectLoop_run (inContinentWithArea continent_ minArea));
      [| exact Hfresh | done].
    intros i newArr s. unfold bind, inContinentWithArea.
    destruct (lift _ s) as [[l s1]|]; [|done].
    destruct (readObject l s1) as [[c s2]|]; [|done].
    by destruct (String.eqb _ _).
  - rewrite drop_0, app_nil_r.
    by apply readArray_rev, readArray_filter.
Qed.

(** ** The store only grows *)

Lemma extends_refl st : extends st st.
Proof. repeat split. exists []. by rewrite app_nil_r. Qed.

Lemma extends_trans st1 st2 st3 :
  extends st1 st2 → extends st2 st3 → extends st1 st3.
Proof.
  intros (Ha & Hn & Ht & Hp & xs & Hx) (Ha' & Hn' & Ht' & Hp' & ys & Hy).
  repeat split; try congruence.
  exists (xs ++ ys). by rewrite Hy, Hx, (assoc_L app).
Qed.

Lemma extends_lookup st st' l c :
  extends st st' → objects st !! l = Some c → objects st' !! l = Some c.
Proof. intros (_ & _ & _ & _ & xs & ->) H. by apply lookup_app_l_Some. Qed.

Lemma extends_datasetUnchanged st st' :
  extends st st' → datasetUnchanged st st'.
Proof.
  intros Hext. pose proof Hext as (Ha & Hn & _ & _).
  split; [done|]. split; [|done].
  intros l c. by apply extends_lookup.
Qed.

Lemma getByLanguageStep_frame language i newArr st r st' :
  length newArr = i →
  getByLanguageStep language i newArr st = Some (r, st') →
  length r = S i ∧ extends st st'.
Proof.
  intros Hlen. unfold getByLanguageStep, bind, objectAssign, lift.
  destruct (all st !! i) as [src|]; [|done].
  destruct (objects st !! src) as [c|] eqn:Hobj; [|done].
  assert (length (newArr ++ [length (objects st)]) = S i) as Hlen'.
  { rewrite length_app. cbn. lia. }
  destruct (truthy language).
  - rewrite lookup_app_r by lia. rewrite Hlen, Nat.sub_diag. cbn.
    unfold readObject, lift. cbn.
    destruct ((objects st ++ [c]) !! src) as [c1|]; [|done]. cbn.
    unfold getProperty.
    destruct (name c1) as [| |ln|]; try done.
    destruct (nameObjects _ !! ln) as [m|]; [|done].
    unfold writeName. cbn.
    rewrite lookup_app_r by lia. rewrite Nat.sub_diag. cbn.
    rewrite insert_app_r_alt by lia. rewrite Nat.sub_diag. cbn.
    intros [= <- <-]. split; [done|]. repeat split. by eexists.
  - unfold ret. intros [= <- <-]. split; [done|]. repeat split. by eexists.
Qed.

Lemma getByLanguage_loop_frame language n :
  ∀ i newArr st r st',
    length newArr = i →
    forLoop n i (getByLanguageStep language) newArr st = Some (r, st') →
    extends st st'.
Proof.
  induction n as [|n IH]; intros i newArr st r st' Hlen; cbn [forLoop].
  - intros [= _ <-]. apply extends_refl.
  - unfold bind at 1.
    destruct (getByLanguageStep language i newArr st) as [[r1 st1]|] eqn:Hstep;
      [|done].
    apply getByLanguageStep_frame in Hstep as [Hlen1 Hext]; [|done].
    intros Hloop. eapply extends_trans; [exact Hext|].
    eapply IH; [exact Hlen1 | exact Hloop].
Qed.

Lemma getByLanguage_frame language st r st' :
  getByLanguage language st = Some (r, st') → extends st st'.
Proof.
  unfold getByLanguage, bind, gets. by apply getByLanguage_loop_frame.
Qed.

(** A loop whose body leaves the state alone leaves the state alone. *)
Lemma forLoop_pure {A} (body : nat → A → M A) n :
  (∀ i acc st r st', body i acc st = Some (r, st') → st' = st) →
  ∀ i acc st r st', forLoop n i body acc st = Some (r, st') → st' = st.
Proof.
  intros Hbody. induction n as [|n IH]; intros i acc st r st'; cbn [forLoop].
  - by intros [= _ <-].
  - unfold bind at 1.
    destruct (body i acc st) as [[r1 st1]|] eqn:Hstep; [|done].
    apply Hbody in Hstep as ->. apply IH.
Qed.

Lemma getByPopulation_frame minPopulation maxPopulation st r st' :
  getByPopulation minPopulation maxPopulation st = Some (r, st') →
  extends st st'.
Proof.
  unfold getByPopulation. unfold bind at 1.
  destruct (getByLanguage _ st) as [[country_ st1]|] eqn:Hlang; [|done].
  apply getByLanguage_frame in Hlang. intros Hloop.
  apply forLoop_pure in Hloop as ->; [done|].
  clear. intros i acc st r st'. unfold bind, lift, readObject, ret.
  destruct (country_ !! i) as [l|]; [|done].
  destruct (objects st !! l) as [c|]; [|done]. cbn.
  repeat case_match; by intros [= _ <-].
Qed.

Lemma getByAreaAndContinent_frame continent_ minArea st r st' :
  getByAreaAndContinent continent_ minArea st = Some (r, st') →
  extends st st'.
Proof.
  unfold getByAreaAndContinent. unfold bind at 1.
  destruct (getByLanguage _ st) as [[country_ st1]|] eqn:Hlang; [|done].
  apply getByLanguage_frame in Hlang. intros Hloop.
  apply forLoop_pure in Hloop as ->; [done|].
  clear. intros i acc st r st'. unfold bind, lift, readObject, ret.
  destruct (country_ !! i) as [l|]; [|done].
  destruct (objects st !! l) as [c|]; [|done]. cbn.
  repeat case_match; by intros [= _ <-].
Qed.

Lemma extends_wfDataset st st' :
  extends st st' → wfDataset st = true → wfDataset st' = true.
Proof.
  intros Hext Hwf. pose proof Hext as (Ha & Hn & _ & _).
  unfold wfDataset in *. rewrite Ha.
  rewrite forallb_forall in *. intros l Hl.
  apply Hwf, wfRecord_inv in Hl as (c & ln & m & Hc & Hname & Hm).
  unfold wfRecord. rewrite (extends_lookup _ _ _ _ Hext Hc), Hname, Hn, Hm.
  done.
Qed.

Lemma extends_readArray st st' arr cs :
  extends st st' → readArray st arr = Some cs → readArray st' arr = Some cs.
Proof.
  intros Hext. rewrite !readArray_Forall2. intros H.
  eapply Forall2_impl; [exact H|]. intros l c. by apply extends_lookup.
Qed.

Lemma wfDataset_records st cs :
  wfDataset st = true → readArray st (all st) = Some cs →
  Forall (λ c, ∃ ln m, name c = VNames ln ∧ nameObjects st !! ln = Some m) cs.
Proof.
  intros Hwf Hcs. apply Forall_lookup. intros i c Hc.
  destruct (lookup_lt_is_Some_2 (all st) i) as [l Hl].
  { rewrite <- (readArray_length _ _ _ Hcs). by eapply lookup_lt_Some. }
  destruct (readArray_lookup _ _ _ _ _ Hcs Hl) as (c' & Hc' & Hobj).
  assert (c' = c) as -> by congruence.
  apply (wfDataset_lookup _ _ _ Hwf), wfRecord_inv in Hl
    as (c' & ln & m & Hobj' & Hname & Hm).
  assert (c' = c) as -> by congruence. eauto.
Qed.

Lemma getByLanguage_result st language cs :
  wfDataset st = true → readArray st (all st) = Some cs →
  ∃ newArr st',
    getByLanguage language st = Some (newArr, st')
    ∧ newArr = seq (length (objects st)) (length (all st))
    ∧ readArray st' newArr
      = Some (map (projected st (default "English" language)) cs).
Proof.
  intros Hwf Hcs. do 2 eexists. split; [by apply getByLanguage_run|].
  split; [done|].
  pose proof (readArray_fresh st
    (map (projected st (default "English" language)) cs)) as H.
  by rewrite length_map, (readArray_length _ _ _ Hcs) in H.
Qed.

Lemma inPopulationRange_max minPopulation mx c :
  toBoolean (Some mx) = true →
  inPopulationRange minPopulation (Some mx) c = true
  ↔ (minPopulation <= population c)%Q ∧ (population c <= mx)%Q.
Proof.
  intros Hmx. unfold inPopulationRange. rewrite Hmx.
  unfold leNumber, geNumber. rewrite andb_true_iff, !Qle_bool_iff. tauto.
Qed.

Lemma inPopulationRange_min minPopulation maxPopulation c :
  toBoolean maxPopulation = false →
  inPopulationRange minPopulation maxPopulation c = true
  ↔ (minPopulation <= population c)%Q.
Proof.
  intros Hmx. unfold inPopulationRange. rewrite Hmx.
  unfold geNumber. by rewrite Qle_bool_iff.
Qed.

Lemma inContinentWithArea_true continent_ minArea c :
  inContinentWithArea continent_ minArea c = true
  ↔ continent c = continent_ ∧ (minArea <= areaInKm2 c)%Q.
Proof.
  unfold inContinentWithArea, geNumber.
  by rewrite andb_true_iff, String.eqb_eq, Qle_bool_iff.
Qed.

Lemma In_rev_filter {A} (P : A → bool) (l : list A) x :
  In x (rev (List.filter P l)) ↔ In x l ∧ P x = true.
Proof. by rewrite <- in_rev, filter_In. Qed.

(** ** The script on the sample data *)

Example getByLanguage_english_canada :
  resultOf (getByLanguage (Some "English")) canadaOnly = Some [canadaInEnglish].
Proof. reflexivity. Qed.

Example getByLanguage_default_canada :
  resultOf (getByLanguage None) canadaOnly = Some [canadaInEnglish].
Proof. reflexivity. Qed.

Example getByPopulation_40m_canada :
  resultOf (getByPopulation (40000000 # 1)%Q None) canadaOnly = Some [].
Proof. reflexivity. Qed.

Example getByAreaAndContinent_americas_canada :
  resultOf (getByAreaAndContinent "Americas" (1000000 # 1)%Q) canadaOnly
  = Some [canadaInEnglish].
Proof. reflexivity. Qed.

Example getByAreaAndContinent_lower_case :
  resultOf (getByAreaAndContinent "americas" 0%Q) canadaOnly = Some [].
Proof. reflexivity. Qed.

Example getByPopulation_sample_order :
  map code <$> resultOf (getByPopulation (1000000 # 1)%Q None) sample
  = Some ["QA"; "JP"; "CA"].
Proof. reflexivity. Qed.

Example getByLanguage_french_names :
  map name <$> resultOf (getByLanguage (Some "French")) sample
  = Some [VString "Canada (fr)"; VString "Japon"; VUndefined].
Proof. reflexivity. Qed.

Example getByLanguage_empty_names :
  map name <$> resultOf (getByLanguage (Some "")) sample
  = Some [VNames 0; VNames 1; VNames 2].
Proof. reflexivity. Qed.

Example getByLanguage_inherited_names :
  map name <$> resultOf (getByLanguage (Some "toString")) sample
  = Some [VHost "function toString() { [native code] }";
          VHost "function toString() { [native code] }";
          VHost "function toString() { [native code] }"].
Proof. reflexivity. Qed.

(** Every falsy [maxPopulation] is as good as none. *)
Lemma getByPopulation_falsy_max minPopulation maxPopulation :
  toBoolean maxPopulation = false →
  getByPopulation minPopulation maxPopulation
  = getByPopulation minPopulation None.
Proof. intros H. unfold getByPopulation. by rewrite H. Qed.

(** ** The queries *)

(** C1: on a data set of the shape of [countries-data.js],
    [getByLanguage(language)] returns an array as long as [countries.all],
    of new objects, in the order of the data set; each is the copy of the
    record at the same index, with [name] replaced by [name[language]] (the
    lookup on the name object, up its prototype chain) when [language] is
    truthy and left as the name object when it is falsy (the empty
    string).  A call without argument is the call with ["English"]. *)
Theorem getByLanguage_copies_in_order
  (st : state) (language : option string) (cs : list country) :
  wfDataset st = true → readArray st (all st) = Some cs →
  ∃ newArr st' copies,
    getByLanguage language st = Some (newArr, st')
    ∧ readArray st' newArr = Some copies
    ∧ length newArr = length (all st)
    ∧ Forall (λ l, (length (objects st) ≤ l)%nat) newArr
    ∧ Forall2 (λ c c',
        if truthy (default "English" language) then
          ∃ ln m, name c = VNames ln ∧ nameObjects st !! ln = Some m
                  ∧ c' = set_name c (lookupProperty (objectPrototype st) m
                                       (default "English" language))
        else c' = c) cs copies
    ∧ getByLanguage None st = getByLanguage (Some "English") st.
Proof.
  intros Hwf Hcs.
  destruct (getByLanguage_result st language cs Hwf Hcs)
    as (newArr & st' & Hrun & -> & Hread).
  exists (seq (length (objects st)) (length (all st))), st'.
  eexists. split; [exact Hrun|]. split; [exact Hread|].
  split; [by rewrite length_seq|].
  split; [apply Forall_seq; intros; lia|].
  split; [|done].
  apply Forall2_fmap_r, Forall_Forall2_diag.
  eapply Forall_impl; [exact (wfDataset_records _ _ Hwf Hcs)|].
  intros c (ln & m & Hname & Hm). unfold projected.
  destruct (truthy _); [|done].
  exists ln, m. by rewrite (projected_lookup _ _ _ _ _ Hname Hm).
Qed.

Lemma getByLanguage_copies_in_order_witness :
  ∃ newArr st' copies,
    getByLanguage (Some "French") sample = Some (newArr, st')
    ∧ readArray st' newArr = Some copies
    ∧ length newArr = length (all sample)
    ∧ Forall (λ l, (length (objects sample) ≤ l)%nat) newArr
    ∧ Forall2 (λ c c',
        if truthy (default "English" (Some "French")) then
          ∃ ln m, name c = VNames ln ∧ nameObjects sample !! ln = Some m
                  ∧ c' = set_name c (lookupProperty (objectPrototype sample)
                                       m (default "English" (Some "French")))
        else c' = c) [canada; japan; qatar] copies
    ∧ getByLanguage None sample = getByLanguage (Some "English") sample.
Proof.
  apply (getByLanguage_copies_in_order sample (Some "French")
           [canada; japan; qatar]); reflexivity.
Defined.

(** C2: [getByPopulation(minPopulation, maxPopulation)] returns exactly the
    English-named copies of the records with
    [minPopulation <= population <= maxPopulation] when [maxPopulation] is
    truthy, and exactly those with [population >= minPopulation] when
    [maxPopulation] is absent or falsy. *)
Theorem getByPopulation_includes_exactly
  (st : state) (minPopulation : Q) (maxPopulation : option Q)
  (cs : list country) :
  wfDataset st = true → readArray st (all st) = Some cs →
  let english := map (λ c, set_name c (nameIn st "English" c)) cs in
  ∃ res st' included,
    getByPopulation minPopulation maxPopulation st = Some (res, st')
    ∧ readArray st' res = Some included
    ∧ (toBoolean maxPopulation = true →
       ∃ mx, maxPopulation = Some mx
             ∧ ∀ c, In c included
                    ↔ In c english
                      ∧ (minPopulation <= population c)%Q
                      ∧ (population c <= mx)%Q)
    ∧ (toBoolean maxPopulation = false →
       ∀ c, In c included
            ↔ In c english ∧ (minPopulation <= population c)%Q).
Proof.
  intros Hwf Hcs english.
  destruct (getByPopulation_run st minPopulation maxPopulation cs Hwf Hcs)
    as (res & Hrun & Hread).
  change (map (projected st "English") cs) with english in *.
  do 3 eexists. split; [exact Hrun|]. split; [exact Hread|]. split.
  - intros Hmx. destruct maxPopulation as [mx|]; [|done].
    exists mx. split; [done|]. intros c.
    by rewrite In_rev_filter, (inPopulationRange_max _ _ _ Hmx).
  - intros Hmx c.
    by rewrite In_rev_filter, (inPopulationRange_min _ _ _ Hmx).
Qed.

Lemma getByPopulation_includes_exactly_witness :
  let english := map (λ c, set_name c (nameIn sample "English" c))
                   [canada; japan; qatar] in
  ∃ res st' included,
    getByPopulation (1000000 # 1)%Q (Some (50000000 # 1)%Q) sample
    = Some (res, st')
    ∧ readArray st' res = Some included
    ∧ ∃ mx, Some (50000000 # 1)%Q = Some mx
            ∧ ∀ c, In c included
                   ↔ In c english
                     ∧ (1000000 # 1 <= population c)%Q
                     ∧ (population c <= mx)%Q.
Proof.
  destruct (getByPopulation_includes_exactly sample (1000000 # 1)%Q
              (Some (50000000 # 1)%Q) [canada; japan; qatar] eq_refl eq_refl)
    as (res & st' & included & Hrun & Hread & Hmax & _).
  exists res, st', included.
  split; [exact Hrun|]. split; [exact Hread|]. exact (Hmax eq_refl).
Defined.

(** C3: the results of [getByPopulation] and of [getByAreaAndContinent] are
    the matching English-named copies in the reverse of the order of the
    data set. *)
Theorem filters_return_reverse_order (st : state) (cs : list country) :
  wfDataset st = true → readArray st (all st) = Some cs →
  let english := map (λ c, set_name c (nameIn st "English" c)) cs in
  (∀ minPopulation maxPopulation,
     resultOf (getByPopulation minPopulation maxPopulation) st
     = Some (rev (List.filter
                    (inPopulationRange minPopulation maxPopulation) english)))
  ∧ (∀ continent_ minArea,
       resultOf (getByAreaAndContinent continent_ minArea) st
       = Some (rev (List.filter
                      (inContinentWithArea continent_ minArea) english))).
Proof.
  intros Hwf Hcs english. split.
  - intros minPopulation maxPopulation.
    destruct (getByPopulation_run st minPopulation maxPopulation cs Hwf Hcs)
      as (res & Hrun & Hread).
    unfold resultOf. by rewrite Hrun.
  - intros continent_ minArea.
    destruct (getByAreaAndContinent_run st continent_ minArea cs Hwf Hcs)
      as (res & Hrun & Hread).
    unfold resultOf. by rewrite Hrun.
Qed.

Lemma filters_return_reverse_order_witness :
  let english := map (λ c, set_name c (nameIn sample "English" c))
                   [canada; japan; qatar] in
  (∀ minPopulation maxPopulation,
     resultOf (getByPopulation minPopulation maxPopulation) sample
     = Some (rev (List.filter
                    (inPopulationRange minPopulation maxPopulation) english)))
  ∧ (∀ continent_ minArea,
       resultOf (getByAreaAndContinent continent_ minArea) sample
       = Some (rev (List.filter
                      (inContinentWithArea continent_ minArea) english))).
Proof.
  apply (filters_return_reverse_order sample [canada; japan; qatar]);
    reflexivity.
Defined.

(** C4: a [maxPopulation] of [0] is falsy, so
    [getByPopulation(minPopulation, 0)] is [getByPopulation(minPopulation)]. *)
Theorem getByPopulation_max_zero (st : state) (minPopulation : Q) :
  getByPopulation minPopulation (Some 0%Q) st
  = getByPopulation minPopulation None st.
Proof. reflexivity. Qed.

(** C5: [getByAreaAndContinent(continent, minArea)] returns exactly the
    English-named copies of the records whose [continent] is the same
    string as the argument and whose [areaInKm2] is at least [minArea];
    with areas that are not negative (the data model),
    [getByAreaAndContinent("Asia", 0)] returns every record of Asia. *)
Theorem getByAreaAndContinent_includes_exactly
  (st : state) (cs : list country) :
  wfDataset st = true → readArray st (all st) = Some cs →
  let english := map (λ c, set_name c (nameIn st "English" c)) cs in
  (∀ continent_ minArea,
     ∃ res st' included,
       getByAreaAndContinent continent_ minArea st = Some (res, st')
       ∧ readArray st' res = Some included
       ∧ ∀ c, In c included
              ↔ In c english
                ∧ continent c = continent_ ∧ (minArea <= areaInKm2 c)%Q)
  ∧ (Forall (λ c, (0 <= areaInKm2 c)%Q) cs →
     ∃ res st' included,
       getByAreaAndContinent "Asia" 0%Q st = Some (res, st')
       ∧ readArray st' res = Some included
       ∧ ∀ c, In c included ↔ In c english ∧ continent c = "Asia").
Proof.
  intros Hwf Hcs english.
  assert (∀ continent_ minArea,
     ∃ res st' included,
       getByAreaAndContinent continent_ minArea st = Some (res, st')
       ∧ readArray st' res = Some included
       ∧ ∀ c, In c included
              ↔ In c english
                ∧ continent c = continent_ ∧ (minArea <= areaInKm2 c)%Q)
    as Hgen.
  { intros continent_ minArea.
    destruct (getByAreaAndContinent_run st continent_ minArea cs Hwf Hcs)
      as (res & Hrun & Hread).
    change (map (projected st "English") cs) with english in *.
    do 3 eexists. split; [exact Hrun|]. split; [exact Hread|].
    intros c. by rewrite In_rev_filter, inContinentWithArea_true. }
  split; [exact Hgen|].
  intros Hareas.
  destruct (Hgen "Asia" 0%Q) as (res & st' & included & Hrun & Hread & Hin).
  exists res, st', included. split; [exact Hrun|]. split; [exact Hread|].
  intros c. rewrite Hin. split; [tauto|].
  intros [Hc Hasia]. split; [done|]. split; [done|].
  unfold english in Hc. apply in_map_iff in Hc as (c0 & <- & Hc0).
  rewrite Forall_forall in Hareas.
  apply list_elem_of_In in Hc0. exact (Hareas c0 Hc0).
Qed.

Lemma getByAreaAndContinent_includes_exactly_witness :
  let english := map (λ c, set_name c (nameIn sample "English" c))
                   [canada; japan; qatar] in
  Forall (λ c, (0 <= areaInKm2 c)%Q) [canada; japan; qatar]
  ∧ ∃ res st' included,
      getByAreaAndContinent "Asia" 0%Q sample = Some (res, st')
      ∧ readArray st' res = Some included
      ∧ ∀ c, In c included ↔ In c english ∧ continent c = "Asia".
Proof.
  assert (Forall (λ c, (0 <= areaInKm2 c)%Q) [canada; japan; qatar]) as Hareas.
  { repeat constructor; by apply Qle_bool_imp_le. }
  split; [exact Hareas|].
  exact (proj2 (getByAreaAndContinent_includes_exactly sample
                  [canada; japan; qatar] eq_refl eq_refl) Hareas).
Defined.

(** C6: no query alters the data set: after [getByLanguage],
    [getByPopulation] or [getByAreaAndContinent], [countries.all], every
    object that was in the store and every name object are as before; so
    two calls of [getByLanguage] in a row, with any two languages, both
    return the names of the original records, and the second call leaves
    the result of the first as it was. *)
Theorem queries_leave_dataset_unchanged (st : state) :
  (∀ language res st',
     getByLanguage language st = Some (res, st') → datasetUnchanged st st')
  ∧ (∀ minPopulation maxPopulation res st',
       getByPopulation minPopulation maxPopulation st = Some (res, st') →
       datasetUnchanged st st')
  ∧ (∀ continent_ minArea res st',
       getByAreaAndContinent continent_ minArea st = Some (res, st') →
       datasetUnchanged st st')
  ∧ (∀ cs language1 language2,
       wfDataset st = true → readArray st (all st) = Some cs →
       ∃ res1 st1 res2 st2,
         getByLanguage language1 st = Some (res1, st1)
         ∧ getByLanguage language2 st1 = Some (res2, st2)
         ∧ readArray st2 res1
           = Some (map (projected st (default "English" language1)) cs)
         ∧ readArray st2 res2
           = Some (map (projected st (default "English" language2)) cs)).
Proof.
  split; [|split; [|split]].
  - intros language res st' H.
    by apply getByLanguage_frame, extends_datasetUnchanged in H.
  - intros minPopulation maxPopulation res st' H.
    by apply getByPopulation_frame, extends_datasetUnchanged in H.
  - intros continent_ minArea res st' H.
    by apply getByAreaAndContinent_frame, extends_datasetUnchanged in H.
  - intros cs language1 language2 Hwf Hcs.
    destruct (getByLanguage_result st language1 cs Hwf Hcs)
      as (res1 & st1 & Hrun1 & _ & Hread1).
    pose proof (getByLanguage_frame _ _ _ _ Hrun1) as Hext1.
    pose proof (extends_wfDataset _ _ Hext1 Hwf) as Hwf1.
    pose proof (extends_readArray _ _ _ _ Hext1 Hcs) as Hcs1.
    destruct Hext1 as (Hall & Hnames & _ & Hproto & _).
    rewrite <- Hall in Hcs1.
    destruct (getByLanguage_result st1 language2 cs Hwf1 Hcs1)
      as (res2 & st2 & Hrun2 & _ & Hread2).
    pose proof (getByLanguage_frame _ _ _ _ Hrun2) as Hext2.
    exists res1, st1, res2, st2.
    split; [exact Hrun1|]. split; [exact Hrun2|].
    split; [by eapply extends_readArray|].
    rewrite Hread2. f_equal. apply map_ext. intros c.
    unfold projected, nameIn. by rewrite Hnames, Hproto.
Qed.

Lemma queries_leave_dataset_unchanged_witness :
  (∃ res st', getByLanguage (Some "French") sample = Some (res, st')
              ∧ datasetUnchanged sample st')
  ∧ (∃ res st', getByPopulation (1000000 # 1)%Q None sample = Some (res, st')
                ∧ datasetUnchanged sample st')
  ∧ (∃ res st', getByAreaAndContinent "Asia" 0%Q sample = Some (res, st')
                ∧ datasetUnchanged sample st')
  ∧ ∃ res1 st1 res2 st2,
      getByLanguage (Some "French") sample = Some (res1, st1)
      ∧ getByLanguage None st1 = Some (res2, st2)
      ∧ readArray st2 res1
        = Some (map (projected sample (default "English" (Some "French")))
                  [canada; japan; qatar])
      ∧ readArray st2 res2
        = Some (map (projected sample (default "English" None))
                  [canada; japan; qatar]).
Proof.
  destruct (queries_leave_dataset_unchanged sample)
    as (Hlanguage & Hpopulation & Harea & Htwice).
  split; [|split; [|split]].
  - do 2 eexists. split; [vm_compute; reflexivity|].
    apply (Hlanguage (Some "French") [3; 4; 5]). vm_compute. reflexivity.
  - do 2 eexists. split; [vm_compute; reflexivity|].
    apply (Hpopulation (1000000 # 1)%Q None [5; 4; 3]). vm_compute. reflexivity.
  - do 2 eexists. split; [vm_compute; reflexivity|].
    apply (Harea "Asia" 0%Q [5; 4]). vm_compute. reflexivity.
  - exact (Htwice [canada; japan; qatar] (Some "French") None
             eq_refl eq_refl).
Defined.




(** ** The table *)

Section RenderingFacts.
Context (numberToString : Q → string).

Lemma countryToRow_run st l c :
  objects st !! l = Some c →
  countryToRow numberToString l st = Some (specRow numberToString c, st).
Proof.
  intros Hobj. unfold countryToRow, bind, readObject, lift.
  by rewrite Hobj.
Qed.

Lemma countriesToTable_loop st countries_ cs t a :
  readArray st countries_ = Some cs →
  ∀ n i, i + n = length countries_ →
  forLoop n i (λ i _,
    l <~ lift (countries_ !! i) ;;
    rows <~ countryToRow numberToString l ;;
    tableRows_ <~ querySelectorTableRows ;;
    λ st, Some (tt, setTableRows st (appendChild tableRows_ (Element rows))))
    tt
    (setTableRows st
       (MkElement t a
          (map (λ c, Element (specRow numberToString c)) (take i cs))))
  = Some (tt,
          setTableRows st
            (MkElement t a
               (map (λ c, Element (specRow numberToString c)) cs))).
Proof.
  intros Hcs n. pose proof (readArray_length _ _ _ Hcs) as Hlen.
  induction n as [|n IH]; intros i Hi.
  - cbn. unfold ret. by rewrite take_ge by lia.
  - destruct (lookup_lt_is_Some_2 countries_ i) as [l Hl]; [lia|].
    destruct (readArray_lookup _ _ _ _ _ Hcs Hl) as (c & Hc & Hobj).
    specialize (IH (S i) ltac:(lia)).
    rewrite (take_S_map _ _ _ _ Hc) in IH.
    rewrite <- IH. clear IH.
    cbn [forLoop]. unfold bind at 1. unfold bind at 1. unfold lift at 1.
    rewrite Hl. unfold bind at 1.
    rewrite (countryToRow_run _ l c) by done.
    done.
Qed.
End RenderingFacts.

(** C7: with a [#table-rows] element in the page, [countriesToTable]
    returns and leaves in it one row per entry of its argument, in the
    order of the argument, whatever rows were there before; each row has
    the seven cells flag image, code, name, continent, area, population and
    capital of its record.  Rendering the empty array next leaves no row. *)
Theorem countriesToTable_renders
  (numberToString : Q → string) (st : state) (tbody : element)
  (countries_ : list loc) (cs : list country) :
  tableRows st = Some tbody → readArray st countries_ = Some cs →
  ∃ st' tbody',
    countriesToTable numberToString countries_ st = Some (tt, st')
    ∧ tableRows st' = Some tbody'
    ∧ childNodes tbody' = map (λ c, Element (specRow numberToString c)) cs
    ∧ length (childNodes tbody') = length countries_
    ∧ tagName tbody' = tagName tbody
    ∧ attributes tbody' = attributes tbody
    ∧ all st' = all st ∧ objects st' = objects st
    ∧ nameObjects st' = nameObjects st
    ∧ ∃ st'' tbody'',
        countriesToTable numberToString [] st' = Some (tt, st'')
        ∧ tableRows st'' = Some tbody''
        ∧ childNodes tbody'' = [].
Proof.
  intros Htbody Hcs.
  exists (setTableRows st
            (MkElement (tagName tbody) (attributes tbody)
               (map (λ c, Element (specRow numberToString c)) cs))).
  eexists. split.
  - unfold countriesToTable. unfold bind at 1.
    unfold clearTable, bind, querySelectorTableRows, lift. rewrite Htbody.
    pose proof (countriesToTable_loop numberToString
                  (setTableRows st (clearInnerHTML tbody)) countries_ cs
                  (tagName tbody) (attributes tbody)) as Hloop.
    exact (Hloop Hcs (length countries_) 0 eq_refl).
  - split; [done|]. cbn. split; [done|].
    split; [by rewrite length_map, (readArray_length _ _ _ Hcs)|].
    do 5 (split; [done|]).
    by do 2 eexists.
Qed.

Lemma countriesToTable_renders_witness :
  ∃ st' tbody',
    countriesToTable wholeToString [2; 0] sample = Some (tt, st')
    ∧ tableRows st' = Some tbody'
    ∧ childNodes tbody'
      = map (λ c, Element (specRow wholeToString c)) [qatar; canada]
    ∧ length (childNodes tbody') = length [2; 0]
    ∧ tagName tbody' = "tbody"
    ∧ attributes tbody' = <["id" := "table-rows"]> ∅
    ∧ all st' = all sample ∧ objects st' = objects sample
    ∧ nameObjects st' = nameObjects sample
    ∧ ∃ st'' tbody'',
        countriesToTable wholeToString [] st' = Some (tt, st'')
        ∧ tableRows st'' = Some tbody''
        ∧ childNodes tbody'' = [].
Proof.
  exact (countriesToTable_renders wholeToString sample
           (MkElement "tbody" (<["id" := "table-rows"]> ∅) [])
           [2; 0] [qatar; canada] eq_refl eq_refl).
Defined.

(** C9: [clearTable] is idempotent: clearing twice is clearing once; it
    leaves the table body without rows, and on a table body without rows
    it changes nothing. *)
Theorem clearTable_idempotent (st : state) :
  (_ <~ clearTable ;; clearTable) st = clearTable st
  ∧ (∀ tbody, tableRows st = Some tbody →
       ∃ st' tbody', clearTable st = Some (tt, st')
                     ∧ tableRows st' = Some tbody'
                     ∧ childNodes tbody' = [])
  ∧ (∀ tbody, tableRows st = Some tbody → childNodes tbody = [] →
       clearTable st = Some (tt, st)).
Proof.
  unfold clearTable, bind, querySelectorTableRows, lift.
  split; [|split].
  - by destruct (tableRows st).
  - intros tbody ->. by do 2 eexists.
  - intros tbody Htbody Hrows. rewrite Htbody.
    destruct st as [a o n t], tbody as [tag attrs rows].
    cbn in *. by subst.
Qed.

Lemma clearTable_idempotent_witness :
  (_ <~ clearTable ;; clearTable) sample = clearTable sample
  ∧ clearTable sample = Some (tt, sample).
Proof.
  split.
  - exact (proj1 (clearTable_idempotent sample)).
  - exact (proj2 (proj2 (clearTable_idempotent sample))
             (MkElement "tbody" (<["id" := "table-rows"]> ∅) [])
             eq_refl eq_refl).
Defined.

(** C10: the image that [countryCodeToFlagImg] makes for a code has
    ["flags/" + code + ".png"] as its [src], the code as it is: for ["CA"]
    the path is [flags/CA.png], not [flags/ca.png]. *)
Theorem countryCodeToFlagImg_src (countryCode : string) :
  tagName (countryCodeToFlagImg countryCode) = "img"
  ∧ attributes (countryCodeToFlagImg countryCode) !! "src"
    = Some ("flags/" +:+ countryCode +:+ ".png")
  ∧ attributes (countryCodeToFlagImg "CA") !! "src" = Some "flags/CA.png"
  ∧ attributes (countryCodeToFlagImg "CA") !! "src" ≠ Some "flags/ca.png".
Proof.
  split; [done|]. split; [apply lookup_insert_eq|].
  split; [apply lookup_insert_eq|].
  unfold countryCodeToFlagImg, setSrc. cbn.
  rewrite lookup_insert_eq. discriminate.
Qed.

(** ** Records without a name *)

Lemma getByLanguageStep_throws language st i src c newArr :
  truthy language = true →
  all st !! i = Some src → objects st !! src = Some c →
  name c = VUndefined → length newArr = i →
  getByLanguageStep language i newArr st = None.
Proof.
  intros Htruthy Hsrc Hobj Hname Hlen.
  assert (src < length (objects st)) as Hlt by (by eapply lookup_lt_Some).
  unfold getByLanguageStep, bind, objectAssign.
  cbn. rewrite Hsrc. cbn. rewrite Hobj, Htruthy.
  rewrite lookup_app_r by lia.
  rewrite Hlen, Nat.sub_diag. cbn.
  unfold readObject. cbn.
  rewrite (lookup_app_l _ _ _ Hlt), Hobj. cbn.
  unfold getProperty. by rewrite Hname.
Qed.

Lemma getByLanguage_loop_throws language n :
  truthy language = true →
  ∀ i newArr st k src c,
    length newArr = i → i ≤ k < i + n →
    all st !! k = Some src → objects st !! src = Some c →
    name c = VUndefined →
    forLoop n i (getByLanguageStep language) newArr st = None.
Proof.
  intros Htruthy. induction n as [|n IH];
    intros i newArr st k src c Hlen Hk Hsrc Hobj Hname; [lia|].
  cbn [forLoop]. unfold bind at 1.
  destruct (getByLanguageStep language i newArr st) as [[r st1]|] eqn:Hstep;
    [|done].
  destruct (decide (k = i)) as [->|Hne].
  - by rewrite (getByLanguageStep_throws _ _ _ _ _ _ Htruthy Hsrc Hobj Hname)
      in Hstep.
  - apply getByLanguageStep_frame in Hstep as [Hlen1 Hext]; [|done].
    pose proof Hext as (Hall & _).
    apply (IH (S i) r st1 k src c); try done; try lia.
    + by rewrite Hall.
    + by eapply extends_lookup.
Qed.

Lemma getByLanguage_throws st language i src c :
  truthy (default "English" language) = true →
  all st !! i = Some src → objects st !! src = Some c →
  name c = VUndefined →
  getByLanguage language st = None.
Proof.
  intros Htruthy Hsrc Hobj Hname. unfold getByLanguage, bind, gets.
  apply (getByLanguage_loop_throws _ _ Htruthy 0 [] st i src c);
    try done.
  split; [lia|]. cbn. by eapply lookup_lt_Some.
Qed.

(** X1: a record of [countries.all] whose [name] is [undefined] makes
    [getByLanguage] throw for every truthy language, and with it
    [getByPopulation] and [getByAreaAndContinent], whatever their
    arguments. *)
Theorem nameless_record_throws
  (st : state) (i : nat) (src : loc) (c : country) :
  all st !! i = Some src → objects st !! src = Some c →
  name c = VUndefined →
  (∀ language, truthy (default "English" language) = true →
     getByLanguage language st = None)
  ∧ (∀ minPopulation maxPopulation,
       getByPopulation minPopulation maxPopulation st = None)
  ∧ (∀ continent_ minArea,
       getByAreaAndContinent continent_ minArea st = None).
Proof.
  intros Hsrc Hobj Hname. split; [|split].
  - intros language Htruthy. by eapply getByLanguage_throws.
  - intros minPopulation maxPopulation. unfold getByPopulation, bind.
    by rewrite (getByLanguage_throws st (Some "English") i src c).
  - intros continent_ minArea. unfold getByAreaAndContinent, bind.
    by rewrite (getByLanguage_throws st (Some "English") i src c).
Qed.

Lemma nameless_record_throws_witness :
  getByLanguage (Some "French") nameless = None
  ∧ getByPopulation 0%Q None nameless = None
  ∧ getByAreaAndContinent "Asia" 0%Q nameless = None.
Proof.
  destruct (nameless_record_throws nameless 1 1
              (Country "XX" "Asia" (1 # 1) (1 # 1) "Nowhere" VUndefined)
              eq_refl eq_refl eq_refl) as (Hlanguage & Hpopulation & Harea).
  split; [exact (Hlanguage (Some "French") eq_refl)|].
  split; [exact (Hpopulation 0%Q None) | exact (Harea "Asia" 0%Q)].
Defined.

Lemma getByLanguageStep_falsy language st i src c newArr :
  truthy language = false →
  all st !! i = Some src → objects st !! src = Some c →
  getByLanguageStep language i newArr st
  = Some (newArr ++ [length (objects st)], setObjects st (objects st ++ [c])).
Proof.
  intros Hfalsy Hsrc Hobj. unfold getByLanguageStep, bind, objectAssign.
  cbn. rewrite Hsrc. cbn. by rewrite Hobj, Hfalsy.
Qed.

Lemma getByLanguage_loop_falsy st language cs :
  truthy language = false → readArray st (all st) = Some cs →
  ∀ n i, i + n = length (all st) →
  forLoop n i (getByLanguageStep language)
    (seq (length (objects st)) i)
    (setObjects st (objects st ++ take i cs))
  = Some (seq (length (objects st)) (i + n),
          setObjects st (objects st ++ cs)).
Proof.
  intros Hfalsy Hcs n. pose proof (readArray_length _ _ _ Hcs) as Hlen.
  induction n as [|n IH]; intros i Hi.
  - simpl. unfold ret. rewrite Nat.add_0_r.
    rewrite take_ge by lia. done.
  - destruct (lookup_lt_is_Some_2 (all st) i) as [src Hsrc]; [lia|].
    destruct (readArray_lookup _ _ _ _ _ Hcs Hsrc) as (c & Hc & Hobj).
    specialize (IH (S i) ltac:(lia)).
    rewrite (take_S_r _ _ _ Hc) in IH.
    replace (i + S n) with (S i + n) by lia.
    rewrite <- IH. clear IH.
    cbn [forLoop]. unfold bind at 1.
    erewrite (getByLanguageStep_falsy language _ i src c);
      [| done | done | by apply lookup_app_l_Some].
    cbn [objects setObjects].
    rewrite length_app, length_take, seq_S, <- (assoc_L (++)).
    by replace (i `min` length cs) with i by lia.
Qed.

(** X2: with the empty string as language no [name] is read: on any store
    in which the entries of [countries.all] are objects, also objects
    without a [name], the call returns, and the objects behind its result
    are equal to the records of the data set, in order. *)
Theorem getByLanguage_empty_copies_any_record
  (st : state) (cs : list country) :
  readArray st (all st) = Some cs →
  ∃ newArr st',
    getByLanguage (Some "") st = Some (newArr, st')
    ∧ readArray st' newArr = Some cs
    ∧ Forall (λ l, (length (objects st) ≤ l)%nat) newArr.
Proof.
  intros Hcs.
  exists (seq (length (objects st)) (length (all st))),
    (setObjects st (objects st ++ cs)).
  split; [|split].
  - unfold getByLanguage, bind, gets.
    pose proof (getByLanguage_loop_falsy st "" cs eq_refl Hcs
                  (length (all st)) 0 eq_refl) as H.
    cbn in H. rewrite app_nil_r in H.
    destruct st; exact H.
  - rewrite <- (readArray_length _ _ _ Hcs). apply readArray_fresh.
  - apply Forall_seq. intros; lia.
Qed.

Lemma getByLanguage_empty_copies_any_record_witness :
  ∃ newArr st',
    getByLanguage (Some "") nameless = Some (newArr, st')
    ∧ readArray st' newArr
      = Some [canada; Country "XX" "Asia" (1 # 1) (1 # 1) "Nowhere" VUndefined]
    ∧ Forall (λ l, (length (objects nameless) ≤ l)%nat) newArr.
Proof.
  exact (getByLanguage_empty_copies_any_record nameless
           [canada; Country "XX" "Asia" (1 # 1) (1 # 1) "Nowhere" VUndefined]
           eq_refl).
Defined.

(** ** The references that the queries return *)

Lemma getByPopulation_refs st minPopulation maxPopulation cs :
  wfDataset st = true → readArray st (all st) = Some cs →
  let st' := setObjects st (objects st ++ map (projected st "English") cs) in
  getByPopulation minPopulation maxPopulation st
  = Some (rev (List.filter
                 (selects st' (inPopulationRange minPopulation maxPopulation))
                 (seq (length (objects st)) (length (all st)))),
          st').
Proof.
  intros Hwf Hcs st'.
  pose proof (readArray_fresh st (map (projected st "English") cs)) as Hfresh.
  fold st' in Hfresh. rewrite length_map in Hfresh.
  rewrite (readArray_length _ _ _ Hcs) in Hfresh.
  unfold getByPopulation, bind.
  rewrite (getByLanguage_run _ _ _ Hwf Hcs). cbn [default]. fold st'.
  rewrite <- (app_nil_r (rev _)), <- (drop_0 (seq _ _)).
  eapply (selectLoop_run (inPopulationRange minPopulation maxPopulation));
    [| exact Hfresh | done].
  intros i newArr s. unfold bind, inPopulationRange.
  destruct (lift _ s) as [[l s1]|]; [|done].
  destruct (readObject l s1) as [[c s2]|]; [|done].
  by destruct (toBoolean maxPopulation).
Qed.

Lemma getByAreaAndContinent_refs st continent_ minArea cs :
  wfDataset st = true → readArray st (all st) = Some cs →
  let st' := setObjects st (objects st ++ map (projected st "English") cs) in
  getByAreaAndContinent continent_ minArea st
  = Some (rev (List.filter
                 (selects st' (inContinentWithArea continent_ minArea))
                 (seq (length (objects st)) (length (all st)))),
          st').
Proof.
  intros Hwf Hcs st'.
  pose proof (readArray_fresh st (map (projected st "English") cs)) as Hfresh.
  fold st' in Hfresh. rewrite length_map in Hfresh.
  rewrite (readArray_length _ _ _ Hcs) in Hfresh.
  unfold getByAreaAndContinent, bind.
  rewrite (getByLanguage_run _ _ _ Hwf Hcs). cbn [default]. fold st'.
  rewrite <- (app_nil_r (rev _)), <- (drop_0 (seq _ _)).
  eapply (selectLoop_run (inContinentWithArea continent_ minArea));
    [| exact Hfresh | done].
  intros i newArr s. unfold bind, inContinentWithArea.
  destruct (lift _ s) as [[l s1]|]; [|done].
  destruct (readObject l s1) as [[c s2]|]; [|done].
  by destruct (String.eqb _ _).
Qed.

Lemma dataset_refs_below st cs l :
  readArray st (all st) = Some cs → l ∈ all st → l < length (objects st).
Proof.
  intros Hcs Hall. apply list_elem_of_lookup in Hall as [i Hi].
  destruct (readArray_lookup _ _ _ _ _ Hcs Hi) as (c & _ & Hobj).
  by eapply lookup_lt_Some.
Qed.

Lemma fresh_refs_apart st cs (P : loc → bool) res :
  readArray st (all st) = Some cs →
  res = rev (List.filter P (seq (length (objects st)) (length (all st)))) →
  NoDup res ∧ ∀ l, l ∈ res → l ∉ all st.
Proof.
  intros Hcs ->. split.
  - apply NoDup_ListNoDup, List.NoDup_rev, List.NoDup_filter, List.seq_NoDup.
  - intros l Hl Hall.
    apply list_elem_of_In, in_rev, filter_In in Hl as [Hl _].
    apply in_seq in Hl as [Hl _].
    pose proof (dataset_refs_below _ _ _ Hcs Hall). lia.
Qed.

(** X3: on a data set of the right shape, the array that a query returns
    holds no reference twice and no reference to a record of
    [countries.all]: what the caller gets are objects of its own. *)
Theorem query_results_are_fresh (st : state) (cs : list country) :
  wfDataset st = true → readArray st (all st) = Some cs →
  (∀ language res st',
     getByLanguage language st = Some (res, st') →
     NoDup res ∧ ∀ l, l ∈ res → l ∉ all st)
  ∧ (∀ minPopulation maxPopulation res st',
       getByPopulation minPopulation maxPopulation st = Some (res, st') →
       NoDup res ∧ ∀ l, l ∈ res → l ∉ all st)
  ∧ (∀ continent_ minArea res st',
       getByAreaAndContinent continent_ minArea st = Some (res, st') →
       NoDup res ∧ ∀ l, l ∈ res → l ∉ all st).
Proof.
  intros Hwf Hcs. split; [|split].
  - intros language res st'. rewrite (getByLanguage_run _ _ _ Hwf Hcs).
    intros [= <- _]. split.
    + apply NoDup_ListNoDup, List.seq_NoDup.
    + intros l Hl Hall. apply list_elem_of_In, in_seq in Hl as [Hl _].
      pose proof (dataset_refs_below _ _ _ Hcs Hall). lia.
  - intros minPopulation maxPopulation res st'.
    rewrite (getByPopulation_refs _ _ _ _ Hwf Hcs). intros [= <- _].
    by eapply fresh_refs_apart.
  - intros continent_ minArea res st'.
    rewrite (getByAreaAndContinent_refs _ _ _ _ Hwf Hcs). intros [= <- _].
    by eapply fresh_refs_apart.
Qed.

Lemma query_results_are_fresh_witness :
  NoDup [5; 4] ∧ ∀ l, l ∈ [5; 4] → l ∉ all sample.
Proof.
  exact (proj2 (proj2 (query_results_are_fresh sample [canada; japan; qatar]
                         eq_refl eq_refl))
           "Asia" 0%Q [5; 4] _ eq_refl).
Defined.

Lemma filter_none {A} (P : A → bool) (l : list A) :
  (∀ x, In x l → P x = false) → List.filter P l = [].
Proof.
  induction l as [|x l IH]; [done|]. intros H. cbn.
  rewrite (H x) by (by left). apply IH. intros y Hy. apply H. by right.
Qed.

(** X4: when a truthy [maxPopulation] lies below [minPopulation],
    [getByPopulation] returns the empty array. *)
Theorem getByPopulation_empty_range
  (st : state) (minPopulation mx : Q) (cs : list country) :
  wfDataset st = true → readArray st (all st) = Some cs →
  toBoolean (Some mx) = true → (mx < minPopulation)%Q →
  resultOf (getByPopulation minPopulation (Some mx)) st = Some [].
Proof.
  intros Hwf Hcs Hmx Hlt.
  destruct (getByPopulation_run st minPopulation (Some mx) cs Hwf Hcs)
    as (res & Hrun & Hread).
  unfold resultOf. rewrite Hrun, Hread. f_equal.
  rewrite filter_none; [done|].
  intros c _. apply not_true_is_false.
  rewrite (inPopulationRange_max _ _ _ Hmx). intros [Hmin Hmax].
  apply (Qlt_not_le _ _ Hlt). by eapply Qle_trans.
Qed.

Lemma getByPopulation_empty_range_witness :
  resultOf (getByPopulation (2000000 # 1)%Q (Some (1000000 # 1)%Q)) sample
  = Some [].
Proof.
  exact (getByPopulation_empty_range sample (2000000 # 1)%Q (1000000 # 1)%Q
           [canada; japan; qatar] eq_refl eq_refl eq_refl eq_refl).
Defined.

Lemma filter_sublist_impl {A} (P Q : A → bool) (l : list A) :
  (∀ x, P x = true → Q x = true) →
  sublist (List.filter P l) (List.filter Q l).
Proof.
  intros HPQ. induction l as [|x l IH]; [done|]. cbn.
  destruct (P x) eqn:HP.
  - rewrite (HPQ x HP). by constructor.
  - destruct (Q x); [by constructor | done].
Qed.

(** X5: giving a [maxPopulation] only narrows the answer: the result of
    [getByPopulation(min, max)] is the result of [getByPopulation(min)]
    with some entries left out, the others in the same order. *)
Theorem getByPopulation_max_narrows
  (st : state) (minPopulation : Q) (maxPopulation : option Q)
  (cs : list country) :
  wfDataset st = true → readArray st (all st) = Some cs →
  ∃ narrow wide,
    resultOf (getByPopulation minPopulation maxPopulation) st = Some narrow
    ∧ resultOf (getByPopulation minPopulation None) st = Some wide
    ∧ sublist narrow wide.
Proof.
  intros Hwf Hcs.
  destruct (getByPopulation_run st minPopulation maxPopulation cs Hwf Hcs)
    as (res1 & Hrun1 & Hread1).
  destruct (getByPopulation_run st minPopulation None cs Hwf Hcs)
    as (res2 & Hrun2 & Hread2).
  do 2 eexists. unfold resultOf. rewrite Hrun1, Hrun2.
  split; [exact Hread1|]. split; [exact Hread2|].
  rewrite <- !filter_rev. apply filter_sublist_impl.
  intros c. unfold inPopulationRange. cbn.
  destruct (toBoolean maxPopulation); [|done].
  rewrite andb_true_iff. tauto.
Qed.

Lemma getByPopulation_max_narrows_witness :
  ∃ narrow wide,
    resultOf (getByPopulation (1000000 # 1)%Q (Some (50000000 # 1)%Q)) sample
    = Some narrow
    ∧ resultOf (getByPopulation (1000000 # 1)%Q None) sample = Some wide
    ∧ sublist narrow wide.
Proof.
  exact (getByPopulation_max_narrows sample (1000000 # 1)%Q
           (Some (50000000 # 1)%Q) [canada; japan; qatar] eq_refl eq_refl).
Defined.

(** ** More on the table *)

Lemma countriesToTable_run numberToString st tbody countries_ cs :
  tableRows st = Some tbody → readArray st countries_ = Some cs →
  countriesToTable numberToString countries_ st
  = Some (tt, setTableRows st
                (MkElement (tagName tbody) (attributes tbody)
                   (map (λ c, Element (specRow numberToString c)) cs))).
Proof.
  intros Htbody Hcs. unfold countriesToTable. unfold bind at 1.
  unfold clearTable, bind, querySelectorTableRows, lift. rewrite Htbody.
  exact (countriesToTable_loop numberToString
           (setTableRows st (clearInnerHTML tbody)) countries_ cs
           (tagName tbody) (attributes tbody) Hcs (length countries_) 0
           eq_refl).
Qed.

Lemma countriesToTable_no_table numberToString st countries_ :
  tableRows st = None → countriesToTable numberToString countries_ st = None.
Proof.
  intros Htbody. unfold countriesToTable. unfold bind at 1.
  unfold clearTable, bind, querySelectorTableRows, lift. by rewrite Htbody.
Qed.

(** X6: the last rendering wins: [countriesToTable(xs)] followed by
    [countriesToTable(ys)] leaves the state that [countriesToTable(ys)]
    alone leaves; no row of the first call survives. *)
Theorem countriesToTable_last_wins
  (numberToString : Q → string) (st : state) (tbody : element)
  (xs ys : list loc) (cxs cys : list country) :
  tableRows st = Some tbody →
  readArray st xs = Some cxs → readArray st ys = Some cys →
  (_ <~ countriesToTable numberToString xs ;;
   countriesToTable numberToString ys) st
  = countriesToTable numberToString ys st.
Proof.
  intros Htbody Hxs Hys. unfold bind.
  rewrite (countriesToTable_run _ _ _ _ _ Htbody Hxs).
  rewrite (countriesToTable_run _ _ _ _ _ Htbody Hys).
  exact (countriesToTable_run numberToString
           (setTableRows st
              (MkElement (tagName tbody) (attributes tbody)
                 (map (λ c, Element (specRow numberToString c)) cxs)))
           _ ys cys eq_refl Hys).
Qed.

Lemma countriesToTable_last_wins_witness :
  (_ <~ countriesToTable wholeToString [0; 1; 2] ;;
   countriesToTable wholeToString [2]) sample
  = countriesToTable wholeToString [2] sample.
Proof.
  exact (countriesToTable_last_wins wholeToString sample
           (MkElement "tbody" (<["id" := "table-rows"]> ∅) [])
           [0; 1; 2] [2] [canada; japan; qatar] [qatar]
           eq_refl eq_refl eq_refl).
Defined.

(** X7: [countriesToTable] on an array of country objects throws exactly
    when the page has no [#table-rows] element, the empty array
    included. *)
Theorem countriesToTable_throws_iff_no_table
  (numberToString : Q → string) (st : state)
  (countries_ : list loc) (cs : list country) :
  readArray st countries_ = Some cs →
  countriesToTable numberToString countries_ st = None ↔ tableRows st = None.
Proof.
  intros Hcs. split.
  - destruct (tableRows st) as [tbody|] eqn:Htbody; [|done].
    by rewrite (countriesToTable_run _ _ _ _ _ Htbody Hcs).
  - apply countriesToTable_no_table.
Qed.

Lemma countriesToTable_throws_iff_no_table_witness :
  countriesToTable wholeToString []
    {| all := []; objects := []; nameObjects := []; tableRows := None;
       objectPrototype := standardPrototype |}
  = None.
Proof.
  exact (proj2 (countriesToTable_throws_iff_no_table wholeToString
                  {| all := []; objects := []; nameObjects := [];
                     tableRows := None;
                     objectPrototype := standardPrototype |}
                  [] [] eq_refl) eq_refl).
Defined.

Lemma list_ascii_of_string_app s t :
  String.list_ascii_of_string (s +:+ t)
  = String.list_ascii_of_string s ++ String.list_ascii_of_string t.
Proof.
  induction s as [|a s IH]; [done|].
  change (String a s +:+ t) with (String a (s +:+ t)).
  cbn [String.list_ascii_of_string]. by rewrite IH.
Qed.

Lemma string_app_inv_tail s1 s2 t : s1 +:+ t = s2 +:+ t → s1 = s2.
Proof.
  intros H. apply (f_equal String.list_ascii_of_string) in H.
  rewrite !list_ascii_of_string_app in H. apply app_inv_tail in H.
  apply (f_equal String.string_of_list_ascii) in H.
  by rewrite !String.string_of_list_ascii_of_string in H.
Qed.

(** X8: different codes get different images: two codes that differ give
    two different [src] paths. *)
Theorem countryCodeToFlagImg_inj (code1 code2 : string) :
  code1 ≠ code2 →
  attributes (countryCodeToFlagImg code1) !! "src"
  ≠ attributes (countryCodeToFlagImg code2) !! "src".
Proof.
  intros Hne. unfold countryCodeToFlagImg, setSrc. cbn.
  rewrite !lookup_insert_eq. intros [= H].
  change (code1 +:+ ".png" = code2 +:+ ".png") in H.
  by apply string_app_inv_tail in H.
Qed.

Lemma countryCodeToFlagImg_inj_witness :
  attributes (countryCodeToFlagImg "CA") !! "src"
  ≠ attributes (countryCodeToFlagImg "CH") !! "src".
Proof. apply (countryCodeToFlagImg_inj "CA" "CH"). discriminate. Defined.

(** X9: rendering the result of [getByLanguage(language)] for a truthy
    language that no name object has, and that is not the name of a
    property of [Object.prototype], shows the text [undefined] in the name
    cell of every row, one row per record; the call does not throw. *)
Theorem unknown_language_renders_undefined
  (numberToString : Q → string) (st : state) (language : string)
  (cs : list country) (tbody : element) :
  wfDataset st = true → readArray st (all st) = Some cs →
  tableRows st = Some tbody →
  truthy language = true →
  (∀ m, m ∈ nameObjects st → m !! language = None) →
  objectPrototype st !! language = None →
  ∃ st' tbody',
    (res <~ getByLanguage (Some language) ;;
     countriesToTable numberToString res) st = Some (tt, st')
    ∧ tableRows st' = Some tbody'
    ∧ length (childNodes tbody') = length (all st)
    ∧ Forall (λ row, ∃ cells,
                row = Element (MkElement "tr" ∅ cells)
                ∧ cells !! 2 = Some (specCell (Text "undefined")))
        (childNodes tbody').
Proof.
  intros Hwf Hcs Htbody Htruthy Hmissing Hproto.
  destruct (getByLanguage_result st (Some language) cs Hwf Hcs)
    as (newArr & st1 & Hrun & _ & Hread).
  pose proof (getByLanguage_frame _ _ _ _ Hrun) as (_ & _ & Htable & _).
  rewrite Htbody in Htable.
  do 2 eexists. split.
  { unfold bind. rewrite Hrun.
    exact (countriesToTable_run _ _ _ _ _ Htable Hread). }
  split; [done|]. cbn.
  split; [by rewrite !length_map, (readArray_length _ _ _ Hcs)|].
  rewrite List.map_map. apply Forall_fmap, Forall_forall. intros c Hc.
  apply list_elem_of_lookup in Hc as [i Hc].
  pose proof (wfDataset_records _ _ Hwf Hcs) as Hrecords.
  rewrite Forall_lookup in Hrecords.
  destruct (Hrecords i c Hc) as (ln & m & Hname & Hm).
  eexists. split; [reflexivity|]. cbn. do 3 f_equal.
  unfold projected. rewrite Htruthy. cbn.
  rewrite (projected_lookup _ _ _ _ _ Hname Hm).
  unfold lookupProperty.
  rewrite (Hmissing m), Hproto; [done|]. by eapply list_elem_of_lookup_2.
Qed.

Lemma unknown_language_renders_undefined_witness :
  ∃ st' tbody',
    (res <~ getByLanguage (Some "Klingon") ;;
     countriesToTable wholeToString res) sample = Some (tt, st')
    ∧ tableRows st' = Some tbody'
    ∧ length (childNodes tbody') = length (all sample)
    ∧ Forall (λ row, ∃ cells,
                row = Element (MkElement "tr" ∅ cells)
                ∧ cells !! 2 = Some (specCell (Text "undefined")))
        (childNodes tbody').
Proof.
  apply (unknown_language_renders_undefined wholeToString sample "Klingon"
           [canada; japan; qatar]
           (MkElement "tbody" (<["id" := "table-rows"]> ∅) []));
    try reflexivity.
  intros m Hm. cbn in Hm.
  repeat (apply elem_of_cons in Hm as [->|Hm]; [reflexivity|]).
  by apply elem_of_nil in Hm.
Defined.

(** ** The menu *)

Lemma getByLanguage_answers st language cs :
  wfDataset st = true → readArray st (all st) = Some cs →
  ∃ res st1,
    getByLanguage language st = Some (res, st1) ∧ extends st st1
    ∧ readArray st1 res
      = Some (map (projected st (default "English" language)) cs).
Proof.
  intros Hwf Hcs.
  destruct (getByLanguage_result st language cs Hwf Hcs)
    as (res & st1 & Hrun & _ & Hread).
  exists res, st1. split; [done|]. split; [|done].
  by eapply getByLanguage_frame.
Qed.

Lemma getByPopulation_answers st minPopulation maxPopulation cs :
  wfDataset st = true → readArray st (all st) = Some cs →
  ∃ res st1,
    getByPopulation minPopulation maxPopulation st = Some (res, st1)
    ∧ extends st st1
    ∧ readArray st1 res
      = Some (rev (List.filter
                     (inPopulationRange minPopulation maxPopulation)
                     (map (projected st "English") cs))).
Proof.
  intros Hwf Hcs.
  destruct (getByPopulation_run st minPopulation maxPopulation cs Hwf Hcs)
    as (res & Hrun & Hread).
  exists res. eexists. split; [exact Hrun|]. split; [|exact Hread].
  by eapply getByPopulation_frame.
Qed.

Lemma getByAreaAndContinent_answers st continent_ minArea cs :
  wfDataset st = true → readArray st (all st) = Some cs →
  ∃ res st1,
    getByAreaAndContinent continent_ minArea st = Some (res, st1)
    ∧ extends st st1
    ∧ readArray st1 res
      = Some (rev (List.filter
                     (inContinentWithArea continent_ minArea)
                     (map (projected st "English") cs))).
Proof.
  intros Hwf Hcs.
  destruct (getByAreaAndContinent_run st continent_ minArea cs Hwf Hcs)
    as (res & Hrun & Hread).
  exists res. eexists. split; [exact Hrun|]. split; [|exact Hread].
  by eapply getByAreaAndContinent_frame.
Qed.

Lemma projected_names st1 st2 language c :
  nameObjects st1 = nameObjects st2 →
  objectPrototype st1 = objectPrototype st2 →
  projected st1 language c = projected st2 language c.
Proof. intros H H'. unfold projected, nameIn. by rewrite H, H'. Qed.

Section MenuFacts.
Context (numberToString : Q → string) (parseHTML : string → list node).

Lemma show_run query caption pg recs tbody :
  (∃ res st1, query (script pg) = Some (res, st1)
              ∧ extends (script pg) st1 ∧ readArray st1 res = Some recs) →
  tableRows (script pg) = Some tbody →
  ∃ st1, extends (script pg) st1
    ∧ show numberToString query caption pg
      = caption (setApp pg
                   (setTableRows st1
                      (MkElement (tagName tbody) (attributes tbody)
                         (map (λ c, Element (specRow numberToString c))
                            recs)))).
Proof.
  intros (res & st1 & Hrun & Hext & Hread) Htbody.
  exists st1. split; [done|]. unfold show. rewrite Hrun.
  destruct Hext as (_ & _ & Htable & _). rewrite Htbody in Htable.
  by rewrite (countriesToTable_run _ _ _ _ _ Htable Hread).
Qed.

Lemma handler_run item :
  ∃ kids, ∀ pg cs tbody e,
    wfDataset (script pg) = true →
    readArray (script pg) (all (script pg)) = Some cs →
    tableRows (script pg) = Some tbody → subtitle pg = Some e →
    ∃ st1, extends (script pg) st1
      ∧ handler numberToString parseHTML item pg
        = Some (tt,
                {| script :=
                     setTableRows st1
                       (MkElement (tagName tbody) (attributes tbody)
                          (map (λ c, Element (specRow numberToString c))
                             (shownRecords item (script pg) cs)));
                   subtitle :=
                     Some (MkElement (tagName e) (attributes e) kids);
                   menuElements := menuElements pg;
                   listeners := listeners pg |}).
Proof.
  destruct item; eexists; intros pg cs tbody e Hwf Hcs Htbody Hsub;
    unfold handler;
    (match goal with
     | |- context [show _ ?q ?c pg] =>
         edestruct (show_run q c pg) as (st1 & Hext & Hshow)
     end;
     [ first [ by apply getByLanguage_answers
             | by apply getByPopulation_answers
             | by apply getByAreaAndContinent_answers ]
     | exact Htbody
     | exists st1; split; [exact Hext|];
       rewrite Hshow;
       unfold subtitleTextContent, subtitleInnerHTML; cbn;
       rewrite Hsub; reflexivity ]).
Qed.

Lemma shownRecords_names item st1 st2 cs :
  nameObjects st1 = nameObjects st2 →
  objectPrototype st1 = objectPrototype st2 →
  shownRecords item st1 cs = shownRecords item st2 cs.
Proof.
  intros H H'. unfold shownRecords.
  assert (∀ language,
            map (projected st1 language) cs = map (projected st2 language) cs)
    as Hmap.
  { intros language. apply map_ext. intros c. by apply projected_names. }
  destruct item; by rewrite ?Hmap.
Qed.

Lemma datasetUnchanged_trans st1 st2 st3 :
  datasetUnchanged st1 st2 → datasetUnchanged st2 st3 →
  datasetUnchanged st1 st3.
Proof.
  intros (Ha & Ho & Hn) (Ha' & Ho' & Hn').
  split; [congruence|]. split; [|congruence]. eauto.
Qed.

Lemma show_throws query caption pg :
  (∀ res st1, query (script pg) = Some (res, st1) →
              extends (script pg) st1) →
  (∀ pg', subtitle pg' = None → caption pg' = None) →
  tableRows (script pg) = None ∨ subtitle pg = None →
  show numberToString query caption pg = None.
Proof.
  intros Hframe Hcaption Hmissing. unfold show.
  destruct (query (script pg)) as [[res st1]|] eqn:Hrun; [|done].
  destruct (Hframe _ _ eq_refl) as (_ & _ & Htable & _).
  destruct Hmissing as [Htbody|Hsub].
  - rewrite countriesToTable_no_table; [done | congruence].
  - destruct (countriesToTable _ _ _) as [[_ st2]|]; [|done].
    by apply Hcaption.
Qed.
End MenuFacts.

(** X10: a click on a language item of the menu, on a page with the data
    set, [#table-rows] and [#subtitle], leaves one row per record of the
    data set, in its order, with the names in the language of the item,
    and the heading [List of Countries and Dependencies in] that
    language; the data set is as before. *)
Theorem language_item_shows
  (numberToString : Q → string) (parseHTML : string → list node)
  (pg : page) (item : menuItem) (language : string)
  (cs : list country) (tbody e : element) :
  languageOf item = Some language →
  wfDataset (script pg) = true →
  readArray (script pg) (all (script pg)) = Some cs →
  tableRows (script pg) = Some tbody → subtitle pg = Some e →
  ∃ pg' tbody' e',
    handler numberToString parseHTML item pg = Some (tt, pg')
    ∧ tableRows (script pg') = Some tbody'
    ∧ childNodes tbody'
      = map (λ c, Element (specRow numberToString
                             (set_name c (nameIn (script pg) language c)))) cs
    ∧ subtitle pg' = Some e'
    ∧ childNodes e'
      = [Text ("List of Countries and Dependencies in " +:+ language)]
    ∧ datasetUnchanged (script pg) (script pg').
Proof.
  intros Hlang Hwf Hcs Htbody Hsub.
  destruct item; inversion Hlang; subst language; unfold handler;
    (match goal with
     | |- context [show _ ?q ?c pg] =>
         edestruct (show_run numberToString q c pg) as (st1 & Hext & Hshow)
     end;
     [ by apply getByLanguage_answers
     | exact Htbody
     | rewrite Hshow; unfold subtitleTextContent; cbn; rewrite Hsub;
       do 3 eexists; split; [reflexivity|];
       split; [reflexivity|]; split; [by rewrite List.map_map|];
       split; [reflexivity|]; split; [reflexivity|];
       exact (extends_datasetUnchanged _ _ Hext) ]).
Qed.

Lemma language_item_shows_witness :
  ∃ pg' tbody' e',
    handler wholeToString (λ _, []) menu_french samplePage = Some (tt, pg')
    ∧ tableRows (script pg') = Some tbody'
    ∧ childNodes tbody'
      = map (λ c, Element (specRow wholeToString
                             (set_name c (nameIn sample "French" c))))
          [canada; japan; qatar]
    ∧ subtitle pg' = Some e'
    ∧ childNodes e' = [Text "List of Countries and Dependencies in French"]
    ∧ datasetUnchanged sample (script pg').
Proof.
  exact (language_item_shows wholeToString (λ _, []) samplePage menu_french
           "French" [canada; japan; qatar]
           (MkElement "tbody" (<["id" := "table-rows"]> ∅) [])
           (MkElement "h4" (<["id" := "subtitle"]> ∅) [])
           eq_refl eq_refl eq_refl eq_refl eq_refl).
Defined.

(** X11: a click on one of the four other items leaves in the table the
    rows of the English-named records that pass the item's test, in the
    reverse of the order of the data set: population at least 100 000 000;
    population from 1 000 000 to 2 000 000; continent [Americas] and area
    at least 1 000 000; continent [Asia] and area at least 0. *)
Theorem filter_items_show
  (numberToString : Q → string) (parseHTML : string → list node)
  (pg : page) (cs : list country) (tbody e : element) :
  wfDataset (script pg) = true →
  readArray (script pg) (all (script pg)) = Some cs →
  tableRows (script pg) = Some tbody → subtitle pg = Some e →
  let english := map (λ c, set_name c (nameIn (script pg) "English" c)) cs in
  let shows (item : menuItem) (keep : country → bool) :=
    ∃ pg' tbody',
      handler numberToString parseHTML item pg = Some (tt, pg')
      ∧ tableRows (script pg') = Some tbody'
      ∧ childNodes tbody'
        = map (λ c, Element (specRow numberToString c))
            (rev (List.filter keep english)) in
  shows menu_population_100_000_000m
    (λ c, Qle_bool (100000000 # 1) (population c))
  ∧ shows menu_population_1m_2m
      (λ c, Qle_bool (population c) (2000000 # 1)
            && Qle_bool (1000000 # 1) (population c))
  ∧ shows menu_americas_1mkm
      (λ c, String.eqb (continent c) "Americas"
            && Qle_bool (1000000 # 1) (areaInKm2 c))
  ∧ shows menu_asia_all
      (λ c, String.eqb (continent c) "Asia" && Qle_bool 0 (areaInKm2 c)).
Proof.
  intros Hwf Hcs Htbody Hsub english shows.
  assert (∀ item,
    ∃ pg' tbody',
      handler numberToString parseHTML item pg = Some (tt, pg')
      ∧ tableRows (script pg') = Some tbody'
      ∧ childNodes tbody'
        = map (λ c, Element (specRow numberToString c))
            (shownRecords item (script pg) cs)) as Hitem.
  { intros item.
    destruct (handler_run numberToString parseHTML item) as [kids Hrun].
    destruct (Hrun pg cs tbody e Hwf Hcs Htbody Hsub) as (st1 & _ & ->).
    by do 2 eexists. }
  split; [|split; [|split]]; apply Hitem.
Qed.

Lemma filter_items_show_witness :
  ∃ pg' tbody',
    handler wholeToString (λ _, []) menu_asia_all samplePage = Some (tt, pg')
    ∧ tableRows (script pg') = Some tbody'
    ∧ childNodes tbody'
      = map (λ c, Element (specRow wholeToString c))
          (rev (List.filter
                  (λ c, String.eqb (continent c) "Asia"
                        && Qle_bool 0 (areaInKm2 c))
                  (map (λ c, set_name c (nameIn sample "English" c))
                     [canada; japan; qatar]))).
Proof.
  exact (proj2 (proj2 (proj2
           (filter_items_show wholeToString (λ _, []) samplePage
              [canada; japan; qatar]
              (MkElement "tbody" (<["id" := "table-rows"]> ∅) [])
              (MkElement "h4" (<["id" := "subtitle"]> ∅) [])
              eq_refl eq_refl eq_refl eq_refl)))).
Defined.

(** X12: the last click wins: after a click on any item [a], a click on
    any item [b] leaves the table body and the heading that a click on [b]
    alone would have left, and the data set is still as at the start. *)
Theorem last_click_wins
  (numberToString : Q → string) (parseHTML : string → list node)
  (pg : page) (a b : menuItem) (cs : list country) (tbody e : element) :
  wfDataset (script pg) = true →
  readArray (script pg) (all (script pg)) = Some cs →
  tableRows (script pg) = Some tbody → subtitle pg = Some e →
  ∃ pga pgab pgb,
    handler numberToString parseHTML a pg = Some (tt, pga)
    ∧ handler numberToString parseHTML b pga = Some (tt, pgab)
    ∧ handler numberToString parseHTML b pg = Some (tt, pgb)
    ∧ tableRows (script pgab) = tableRows (script pgb)
    ∧ subtitle pgab = subtitle pgb
    ∧ datasetUnchanged (script pg) (script pgab).
Proof.
  intros Hwf Hcs Htbody Hsub.
  destruct (handler_run numberToString parseHTML a) as [ka Ha].
  destruct (handler_run numberToString parseHTML b) as [kb Hb].
  destruct (Ha pg cs tbody e Hwf Hcs Htbody Hsub) as (st1 & Hext1 & Hrun1).
  destruct (Hb pg cs tbody e Hwf Hcs Htbody Hsub) as (st3 & Hext3 & Hrun3).
  pose proof (extends_wfDataset _ _ Hext1 Hwf) as Hwf1.
  pose proof (extends_readArray _ _ _ _ Hext1 Hcs) as Hcs1.
  pose proof Hext1 as (Hall1 & Hnames1 & _ & Hproto1 & _).
  rewrite <- Hall1 in Hcs1.
  match type of Hrun1 with
  | _ = Some (_, ?pga) =>
      destruct (Hb pga cs _ _ Hwf1 Hcs1 eq_refl eq_refl)
        as (st2 & Hext2 & Hrun2)
  end.
  do 3 eexists.
  split; [exact Hrun1|]. split; [exact Hrun2|]. split; [exact Hrun3|].
  cbn in *. split; [|split; [done|]].
  - by rewrite (shownRecords_names b _ (script pg) cs).
  - eapply datasetUnchanged_trans.
    + exact (extends_datasetUnchanged _ _ Hext1).
    + exact (extends_datasetUnchanged _ _ Hext2).
Qed.

Lemma last_click_wins_witness :
  ∃ pga pgab pgb,
    handler wholeToString (λ _, []) menu_french samplePage = Some (tt, pga)
    ∧ handler wholeToString (λ _, []) menu_asia_all pga = Some (tt, pgab)
    ∧ handler wholeToString (λ _, []) menu_asia_all samplePage
      = Some (tt, pgb)
    ∧ tableRows (script pgab) = tableRows (script pgb)
    ∧ subtitle pgab = subtitle pgb
    ∧ datasetUnchanged sample (script pgab).
Proof.
  exact (last_click_wins wholeToString (λ _, []) samplePage
           menu_french menu_asia_all [canada; japan; qatar]
           (MkElement "tbody" (<["id" := "table-rows"]> ∅) [])
           (MkElement "h4" (<["id" := "subtitle"]> ∅) [])
           eq_refl eq_refl eq_refl eq_refl).
Defined.

(** X13: without a [#table-rows] element, or without a [#subtitle]
    element, a click on any item of the menu throws. *)
Theorem handler_throws_without_elements
  (numberToString : Q → string) (parseHTML : string → list node)
  (pg : page) (item : menuItem) :
  tableRows (script pg) = None ∨ subtitle pg = None →
  handler numberToString parseHTML item pg = None.
Proof.
  intros Hmissing.
  destruct item; unfold handler; (apply show_throws; [| | exact Hmissing]);
    try (intros pg' Hsub;
         unfold subtitleTextContent, subtitleInnerHTML; by rewrite Hsub);
    intros res st1 Hrun;
    first [ by eapply getByLanguage_frame
          | by eapply getByPopulation_frame
          | by eapply getByAreaAndContinent_frame ].
Qed.

Lemma handler_throws_without_elements_witness :
  handler wholeToString (λ _, []) menu_english
    {| script := sample; subtitle := None;
       menuElements := map selector allItems; listeners := [] |}
  = None.
Proof.
  apply (handler_throws_without_elements wholeToString (λ _, [])
           {| script := sample; subtitle := None;
              menuElements := map selector allItems; listeners := [] |}
           menu_english).
  right. reflexivity.
Defined.

Lemma addClickListener_present item pg :
  selector item ∈ menuElements pg →
  addClickListener item pg
  = Some (tt, setListeners pg (listeners pg ++ [(selector item, item)])).
Proof. intros H. unfold addClickListener. by rewrite decide_True. Qed.

Lemma addClickListener_absent item pg :
  selector item ∉ menuElements pg → addClickListener item pg = None.
Proof. intros H. unfold addClickListener. by rewrite decide_False. Qed.

Lemma addClickListener_inv item pg pg' :
  addClickListener item pg = Some (tt, pg') →
  selector item ∈ menuElements pg ∧ menuElements pg' = menuElements pg.
Proof.
  unfold addClickListener. case_decide; [|done]. by intros [= <-].
Qed.

Lemma setupMenuHandlers_run pg :
  (∀ item, selector item ∈ menuElements pg) →
  setupMenuHandlers pg
  = Some (tt, setListeners pg
                (listeners pg
                 ++ map (λ item, (selector item, item)) allItems)).
Proof.
  intros Hall. unfold setupMenuHandlers, andThen.
  repeat (rewrite addClickListener_present by apply Hall; cbn).
  rewrite <- !(assoc_L (++)). done.
Qed.

(** X14: on a page that has the twelve menu elements,
    [setupMenuHandlers] returns, touches neither the script's state nor
    the heading, and adds the twelve listeners in the order of the source;
    when no listener was registered before, a click on the element of an
    item then runs the function of that item and nothing else. *)
Theorem setupMenuHandlers_registers (pg : page) :
  (∀ item, selector item ∈ menuElements pg) →
  ∃ pg',
    setupMenuHandlers pg = Some (tt, pg')
    ∧ script pg' = script pg ∧ subtitle pg' = subtitle pg
    ∧ menuElements pg' = menuElements pg
    ∧ listeners pg'
      = listeners pg ++ map (λ item, (selector item, item)) allItems
    ∧ (listeners pg = [] →
       ∀ item, clickListeners pg' (selector item) = [item]).
Proof.
  intros Hall. eexists. split; [by apply setupMenuHandlers_run|].
  do 4 (split; [done|]).
  intros Hnone item. unfold clickListeners. cbn. rewrite Hnone.
  by destruct item.
Qed.

Lemma setupMenuHandlers_registers_witness :
  ∃ pg',
    setupMenuHandlers samplePage = Some (tt, pg')
    ∧ script pg' = sample ∧ subtitle pg' = subtitle samplePage
    ∧ menuElements pg' = menuElements samplePage
    ∧ listeners pg' = map (λ item, (selector item, item)) allItems
    ∧ ∀ item, clickListeners pg' (selector item) = [item].
Proof.
  assert (∀ item, selector item ∈ menuElements samplePage) as Hall.
  { intros item. apply list_elem_of_In. destruct item; cbn; tauto. }
  destruct (setupMenuHandlers_registers samplePage Hall)
    as (pg' & Hrun & Hscript & Hsub & Hmenu & Hls & Hclick).
  exists pg'. repeat (split; [assumption|]). exact (Hclick eq_refl).
Defined.

(** X15: [setupMenuHandlers] returns exactly when the page has every one
    of the twelve menu elements; with one of them missing it throws. *)
Theorem setupMenuHandlers_returns_iff (pg : page) :
  is_Some (setupMenuHandlers pg) ↔ ∀ item, selector item ∈ menuElements pg.
Proof.
  split.
  - intros [[[] pg'] Hrun]. revert Hrun.
    unfold setupMenuHandlers, andThen.
    repeat
      (match goal with
       | |- context [addClickListener ?it ?p] =>
           let H := fresh "Hstep" in
           destruct (addClickListener it p) as [[[] ?]|] eqn:H; [|done];
           apply addClickListener_inv in H as [? ?]
       end).
    intros _ item. destruct item; cbn in *; congruence.
  - intros Hall. rewrite (setupMenuHandlers_run _ Hall). by eexists.
Qed.

Lemma setupMenuHandlers_returns_iff_witness :
  is_Some (setupMenuHandlers samplePage).
Proof.
  apply (proj2 (setupMenuHandlers_returns_iff samplePage)).
  intros item. apply list_elem_of_In. destruct item; cbn; tauto.
Defined.
